(** * dockerizer.py: import extraction, package resolution, manifests

    A shallow embedding of [src/dockerizer.py] and the properties its
    specification states about it.

    Python [str] values are sequences of Unicode code points; they are
    modelled as [list N].  The regular expression of [parse_imports] is
    embedded as a backtracking matcher in continuation-passing style, the
    [set] of import names as a [gset], and the effects of the script (stdout,
    files, exceptions, [sys.exit]) as a state-and-exception monad over an
    explicit host. *)

From Stdlib Require Import String Ascii DecimalString NArith ZArith List Lia.
From stdpp Require Import gmap list sorting.

Local Open Scope N_scope.

(** ** Python strings *)

Abbreviation char := N.
Abbreviation str := (list N).

(** [cp "abc"] is the Python literal ['abc'] as a sequence of code points. *)
Fixpoint cp (s : string) : str :=
  match s with
  | EmptyString => []
  | String a s' => N_of_ascii a :: cp s'
  end.

Definition LF : char := 10.
Definition QUOTE : char := 34.
Definition HASH : char := 35.
Definition SLASH : char := 47.

(** [str.isspace] on one code point, which is what [\s] tests in a [str]
    pattern compiled without [re.ASCII]. *)
Definition is_space (c : char) : bool :=
  ((9 <=? c) && (c <=? 13)) || ((28 <=? c) && (c <=? 32))
  || (c =? 133) || (c =? 160) || (c =? 5760)
  || ((8192 <=? c) && (c <=? 8202))
  || (c =? 8232) || (c =? 8233) || (c =? 8239) || (c =? 8287) || (c =? 12288).

(** The character set [[a-zA-Z0-9_]]. *)
Definition is_ident (c : char) : bool :=
  ((97 <=? c) && (c <=? 122)) || ((65 <=? c) && (c <=? 90))
  || ((48 <=? c) && (c <=? 57)) || (c =? 95).

(** ** The regular-expression engine

    A cursor is a position in the subject: the code points already passed
    (nearest first) and those still ahead. *)

Record cursor := Cursor { behind : list char; ahead : list char }.

Definition subject (c : cursor) : str := rev (behind c) ++ ahead c.
Definition offset (c : cursor) : nat := length (behind c).

(** The state threaded through a match attempt is the cursor and the text of
    group 1, if it has been closed. *)
Abbreviation outcome := (option (cursor * option str)).
Abbreviation cont := (cursor -> option str -> outcome).
Abbreviation re := (cursor -> option str -> cont -> outcome).

(** [^] under [re.MULTILINE]: the start of the subject, or just after a
    line feed. *)
Definition bol (c : cursor) : bool :=
  match behind c with
  | [] => true
  | x :: _ => x =? LF
  end.

Definition re_bol : re :=
  fun c g k => if bol c then k c g else None.

Definition re_class (p : char -> bool) : re :=
  fun c g k =>
    match ahead c with
    | x :: r => if p x then k (Cursor (x :: behind c) r) g else None
    | [] => None
    end.

Definition re_seq (r1 r2 : re) : re :=
  fun c g k => r1 c g (fun c' g' => r2 c' g' k).

Definition re_alt (r1 r2 : re) : re :=
  fun c g k =>
    match r1 c g k with
    | Some m => Some m
    | None => r2 c g k
    end.

Fixpoint re_lit (s : str) : re :=
  match s with
  | [] => fun c g k => k c g
  | x :: s' => re_seq (re_class (N.eqb x)) (re_lit s')
  end.

(** Greedy repetition of a character class: take one more code point while
    the class accepts it, and give code points back, one at a time, when
    the rest of the pattern fails. *)
Fixpoint star_from (p : char -> bool) (bh ah : list char)
    (g : option str) (k : cont) {struct ah} : outcome :=
  match ah with
  | x :: r =>
      if p x then
        match star_from p (x :: bh) r g k with
        | Some m => Some m
        | None => k (Cursor bh ah) g
        end
      else k (Cursor bh ah) g
  | [] => k (Cursor bh ah) g
  end.

Definition re_star (p : char -> bool) : re :=
  fun c g k => star_from p (behind c) (ahead c) g k.

Definition re_plus (p : char -> bool) : re :=
  re_seq (re_class p) (re_star p).

(** A capturing group (the pattern has one): what [r] consumed. *)
Definition re_group (r : re) : re :=
  fun c g k =>
    r c g (fun c' _ => k c' (Some (take (offset c' - offset c) (ahead c)))).

(** [import_pattern = r'^\s*(?:import|from)\s+([a-zA-Z0-9_]+)'] *)
Definition import_pattern : re :=
  re_seq re_bol
    (re_seq (re_star is_space)
       (re_seq (re_alt (re_lit (cp "import")) (re_lit (cp "from")))
          (re_seq (re_plus is_space)
             (re_group (re_plus is_ident))))).

Definition match_at (r : re) (c : cursor) : outcome :=
  r c None (fun c' g => Some (c', g)).

(** A match object: its span and group 1. *)
Record match_obj := Match {
  m_start : nat;
  m_end : nat;
  m_group1 : option str
}.

(** The scanner behind [re.finditer]: try the pattern at the cursor; after a
    match resume at its end, otherwise one code point further.  [import_pattern]
    never matches the empty string, so the scanner's rule for empty matches
    is not needed.  The fuel bounds the number of attempts
    ([search_fuel_irrelevant] shows that [finditer] gives enough). *)
Fixpoint search (r : re) (fuel : nat) (c : cursor) : list match_obj :=
  match fuel with
  | O => []
  | S fuel' =>
      match match_at r c with
      | Some (c', g) => Match (offset c) (offset c') g :: search r fuel' c'
      | None =>
          match ahead c with
          | x :: rest => search r fuel' (Cursor (x :: behind c) rest)
          | [] => []
          end
      end
  end.

Definition finditer_from (r : re) (c : cursor) : list match_obj :=
  search r (S (length (ahead c))) c.

Definition finditer (r : re) (content : str) : list match_obj :=
  finditer_from r (Cursor [] content).

(** ** [parse_imports], the part that cannot fail

    [[
    for match in matches:
        package = match.group(1)
        imports.add(package)
    ]] *)
Definition add_group (imports : gset str) (m : match_obj) : gset str :=
  match m_group1 m with
  | Some package => {[ package ]} ∪ imports
  | None => imports
  end.

Definition scan_imports (content : str) : gset str :=
  foldl add_group ∅ (finditer import_pattern content).

(** ** Exceptions, the host and the effect monad *)

Inductive exn_class :=
  | FileNotFoundError
  | PermissionError
  | IsADirectoryError
  | OtherOSError
  | UnicodeDecodeError
  | CalledProcessError
  | KeyboardInterrupt
  | SystemExit (code : Z).

(** An exception value: its class and [str(e)]. *)
Record exn := Exn { exn_class_of : exn_class; exn_str : str }.

(** [except Exception] catches every class but the two that derive from
    [BaseException] directly. *)
Definition is_Exception (e : exn) : bool :=
  match exn_class_of e with
  | KeyboardInterrupt | SystemExit _ => false
  | _ => true
  end.

Definition is_CalledProcessError (e : exn) : bool :=
  match exn_class_of e with CalledProcessError => true | _ => false end.

Definition is_FileNotFoundError (e : exn) : bool :=
  match exn_class_of e with FileNotFoundError => true | _ => false end.

Definition is_KeyboardInterrupt (e : exn) : bool :=
  match exn_class_of e with KeyboardInterrupt => true | _ => false end.

(** What the script asks of the interpreter, the operating system and the
    container engine.  [read_text p] is [open(p, 'r')] followed by
    [f.read()]; [write_text p] is [None] when [open(p, 'w')] and the writes
    succeed; [subprocess_run argv cwd] is [subprocess.run(argv, cwd=cwd,
    check=True)], [None] when the command ran and returned 0;
    [set_order s] is the order in which a [for] loop walks the set [s]. *)
Record host := Host {
  os_path_isfile : str -> bool;
  os_path_abspath : str -> str;
  os_path_dirname : str -> str;
  os_path_basename : str -> str;
  os_path_splitext : str -> str * str;
  os_path_join : str -> str -> str;
  str_lower : str -> str;
  read_text : str -> exn + str;
  write_text : str -> option exn;
  subprocess_run : list str -> option str -> option exn;
  set_order : gset str -> list str;
  set_order_perm : forall s, set_order s ≡ₚ elements s
}.

(** What a run leaves behind: the arguments of the [print] calls, in order,
    and the files written. *)
Record world := World { stdout : list str; files : gmap str str }.

Definition world0 : world := World [] ∅.

Inductive result (A : Type) :=
  | Ret (a : A)
  | Raise (e : exn).
Arguments Ret {A} a.
Arguments Raise {A} e.

Definition M (A : Type) := world -> result A * world.

Definition ret {A} (a : A) : M A := fun w => (Ret a, w).

Definition bind {A B} (m : M A) (f : A -> M B) : M B :=
  fun w =>
    match m w with
    | (Ret a, w') => f a w'
    | (Raise e, w') => (Raise e, w')
    end.

Definition raise {A} (e : exn) : M A := fun w => (Raise e, w).

(** [try: body  except C1 as e: h1 e  except C2 as e: h2 e ...]: the first
    clause whose class the exception belongs to handles it; an exception
    no clause names, or one a handler raises, goes on to the caller. *)
Definition handle {A} (clauses : list ((exn -> bool) * (exn -> M A)))
    (e : exn) : M A :=
  match List.find (fun cl => fst cl e) clauses with
  | Some cl => snd cl e
  | None => raise e
  end.

Definition try_except {A} (body : M A)
    (clauses : list ((exn -> bool) * (exn -> M A))) : M A :=
  fun w =>
    match body w with
    | (Ret a, w') => (Ret a, w')
    | (Raise e, w') => handle clauses e w'
    end.

#[export] Instance M_ret : MRet M := @ret.
#[export] Instance M_bind : MBind M := fun A B f m => bind m f.

Definition print (s : str) : M unit :=
  fun w => (Ret tt, World (stdout w ++ [s]) (files w)).

Definition sys_exit {A} (code : Z) : M A :=
  raise (Exn (SystemExit code) []).

Definition open_read (h : host) (path : str) : M str :=
  match read_text h path with
  | inl e => raise e
  | inr content => ret content
  end.

Definition open_write (h : host) (path content : str) : M unit :=
  match write_text h path with
  | Some e => raise e
  | None => fun w => (Ret tt, World (stdout w) (<[path := content]> (files w)))
  end.

Definition run_checked (h : host) (argv : list str) (cwd : option str)
    : M unit :=
  match subprocess_run h argv cwd with
  | Some e => raise e
  | None => ret tt
  end.

(** ** [parse_imports] *)

Definition parse_imports (h : host) (python_file : str) : M (gset str) :=
  try_except
    (content ← open_read h python_file;
     mret (scan_imports content))
    [ (is_Exception,
       fun e =>
         print (cp "Warning: Could not parse imports from " ++ python_file
                ++ cp ": " ++ exn_str e);;
         mret ∅) ].

(** ** [map_to_pip_packages] *)

Definition package_mapping_items : list (str * str) :=
  [ (cp "cv2", cp "opencv-python");
    (cp "PIL", cp "Pillow");
    (cp "sklearn", cp "scikit-learn");
    (cp "yaml", cp "pyyaml");
    (cp "dotenv", cp "python-dotenv");
    (cp "bs4", cp "beautifulsoup4");
    (cp "dateutil", cp "python-dateutil") ].

Definition package_mapping : gmap str str :=
  list_to_map package_mapping_items.

Definition stdlib_names : list str :=
  [ cp "os"; cp "sys"; cp "re"; cp "json"; cp "time"; cp "datetime";
    cp "math"; cp "random"; cp "collections"; cp "itertools";
    cp "functools"; cp "pathlib"; cp "subprocess"; cp "threading";
    cp "multiprocessing"; cp "logging"; cp "argparse"; cp "io"; cp "shutil";
    cp "tempfile"; cp "glob"; cp "pickle"; cp "csv"; cp "urllib"; cp "http";
    cp "socket"; cp "email"; cp "html"; cp "xml"; cp "sqlite3";
    cp "hashlib"; cp "hmac"; cp "base64"; cp "binascii"; cp "struct";
    cp "array"; cp "enum"; cp "typing"; cp "copy"; cp "weakref";
    cp "contextlib"; cp "abc"; cp "asyncio"; cp "concurrent"; cp "queue";
    cp "secrets"; cp "string"; cp "textwrap"; cp "unicodedata"; cp "codecs";
    cp "encodings"; cp "decimal"; cp "fractions"; cp "statistics";
    cp "heapq"; cp "bisect"; cp "pprint"; cp "reprlib"; cp "dataclasses";
    cp "graphlib"; cp "warnings"; cp "traceback"; cp "inspect";
    cp "importlib"; cp "pkgutil"; cp "modulefinder"; cp "runpy"; cp "site";
    cp "builtins" ].

Definition stdlib : gset str := list_to_set stdlib_names.

(** [package_mapping.get(imp, imp)] *)
Definition pip_name (imp : str) : str :=
  default imp (package_mapping !! imp).

(** One turn of the loop: [continue] on a standard-library name, otherwise
    [pip_packages.append(package)]. *)
Definition resolve_step (pip_packages : list str) (imp : str) : list str :=
  if bool_decide (imp ∈ stdlib) then pip_packages
  else pip_packages ++ [pip_name imp].

(** [imports] is the set in the order the loop walks it. *)
Definition map_to_pip_packages (imports : list str) : list str :=
  foldl resolve_step [] imports.

(** ** Text helpers *)

(** The order of [str]: code point by code point, a prefix first. *)
Fixpoint str_leb (a b : str) : bool :=
  match a, b with
  | [], _ => true
  | _ :: _, [] => false
  | x :: a', y :: b' =>
      if x <? y then true else if x =? y then str_leb a' b' else false
  end.

Definition str_le (a b : str) : Prop := str_leb a b = true.

#[export] Instance str_le_dec : RelDecision str_le :=
  fun a b => decide (str_leb a b = true).

(** [sorted(pip_packages)] *)
Definition sorted (l : list str) : list str := merge_sort str_le l.

(** [sep.join(l)] *)
Fixpoint str_join (sep : str) (l : list str) : str :=
  match l with
  | [] => []
  | [s] => s
  | s :: l' => s ++ sep ++ str_join sep l'
  end.

(** [s.endswith(suffix)] *)
Definition endswith (s suffix : str) : bool :=
  bool_decide (drop (length s - length suffix) s = suffix).

(** [c * n] *)
Definition str_repeat (s : str) (n : nat) : str := concat (replicate n s).

(** [str(n)] for a length. *)
Definition str_of_nat (n : nat) : str :=
  cp (NilEmpty.string_of_uint (Nat.to_uint n)).

(** A line of a multi-line literal, with its line feed. *)
Definition ln (s : str) : str := s ++ [LF].

(** ** [create_dockerfile] *)

Definition dockerfile_head (script_name : str) : str :=
  ln (cp "# auto-generated dockerfile for " ++ script_name)
  ++ ln (cp "FROM python:3.11-slim-bookworm")
  ++ ln []
  ++ ln (cp "# Set working directory")
  ++ ln (cp "WORKDIR /app")
  ++ ln []
  ++ ln (cp "# Install system dependencies")
  ++ ln (cp "RUN apt-get update && apt-get install -y \")
  ++ ln (cp "    gcc \")
  ++ ln (cp "    && rm -rf /var/lib/apt/lists/*")
  ++ ln []
  ++ ln (cp "# Copy Python script")
  ++ ln (cp "COPY " ++ script_name ++ cp " /app/")
  ++ ln []
  ++ ln (cp "# Install Python dependencies")
  ++ ln [].

Definition install_step (pip_packages : list str) : str :=
  ln (cp "RUN pip install --no-cache-dir " ++ str_join (cp " ") pip_packages).

Definition no_dependencies_comment : str :=
  ln (cp "# No external dependencies detected").

Definition dockerfile_tail (script_name : str) : str :=
  ln []
  ++ ln (cp "# Run the script")
  ++ ln (cp "CMD [" ++ [QUOTE] ++ cp "python3" ++ [QUOTE] ++ cp ", "
         ++ [QUOTE] ++ script_name ++ [QUOTE] ++ cp "]").

Definition dockerfile_content (script_name : str) (pip_packages : list str)
    : str :=
  dockerfile_head script_name
  ++ (match pip_packages with
      | _ :: _ => install_step pip_packages
      | [] => no_dependencies_comment
      end)
  ++ dockerfile_tail script_name.

Definition create_dockerfile (h : host) (python_file : str)
    (pip_packages : list str) (work_dir : str) : M str :=
  let script_name := os_path_basename h python_file in
  let dockerfile_path := os_path_join h work_dir (cp "Dockerfile") in
  open_write h dockerfile_path (dockerfile_content script_name pip_packages);;
  print (cp "Created Dockerfile at: " ++ dockerfile_path);;
  mret dockerfile_path.

(** ** [create_requirements_txt] *)

Definition requirements_content (pip_packages : list str) : str :=
  concat (ln <$> sorted pip_packages).

Definition create_requirements_txt (h : host) (pip_packages : list str)
    (work_dir : str) : M (option str) :=
  match pip_packages with
  | [] => mret None
  | _ :: _ =>
      let requirements_path := os_path_join h work_dir (cp "requirements.txt") in
      open_write h requirements_path (requirements_content pip_packages);;
      print (cp "Created requirements.txt at: " ++ requirements_path);;
      mret (Some requirements_path)
  end.

(** ** The container engine *)

Definition rule : str := str_repeat (cp "=") 60.

Definition build_argv (image_name : str) : list str :=
  [cp "docker"; cp "build"; cp "-t"; image_name; cp "."].

Definition build_docker_image (h : host) (work_dir image_name : str)
    : M bool :=
  print ([LF] ++ cp " [ + ] Building Docker image: " ++ image_name);;
  print rule;;
  try_except
    (run_checked h (build_argv image_name) (Some work_dir);;
     print rule;;
     print (cp "[ + ] Successfully built image: " ++ image_name ++ [LF]);;
     mret true)
    [ (is_CalledProcessError,
       fun e =>
         print (cp "[ - ] Failed to build Docker image: " ++ exn_str e);;
         mret false);
      (is_FileNotFoundError,
       fun _ =>
         print (cp "[ - ] Docker is not installed or not in PATH");;
         mret false) ].

Definition run_argv (image_name container_name : str) : list str :=
  [cp "docker"; cp "run"; cp "-d"; cp "--name"; container_name; cp "--rm";
   image_name].

Definition run_docker_container (h : host) (image_name container_name : str)
    : M bool :=
  print (cp " [ + ] Running Docker container: " ++ container_name);;
  print rule;;
  try_except
    (run_checked h (run_argv image_name container_name) None;;
     print rule;;
     print (cp "[ + ] Container " ++ container_name
            ++ cp " finished execution" ++ [LF]);;
     mret true)
    [ (is_CalledProcessError,
       fun e =>
         print (cp "[ + ] Container execution failed: " ++ exn_str e);;
         mret false);
      (is_KeyboardInterrupt,
       fun _ =>
         print ([LF] ++ cp "[ + ] Container execution interrupted");;
         mret false) ].

(** ** [main] *)

(** The namespace [parser.parse_args()] returns. *)
Record args := Args {
  arg_python_file : str;
  arg_no_run : bool;
  arg_image_name : option str;
  arg_container_name : option str
}.

(** [a or b] for an optional string [a]: [None] and [''] are false. *)
Definition or_else (a : option str) (b : str) : str :=
  match a with
  | Some (x :: s) => x :: s
  | Some [] | None => b
  end.

Fixpoint for_each {A} (l : list A) (body : A -> M unit) : M unit :=
  match l with
  | [] => mret tt
  | x :: l' => body x;; for_each l' body
  end.

Definition main (h : host) (a : args) : M unit :=
  let python_file := arg_python_file a in
  (if os_path_isfile h python_file then mret tt
   else print (cp "[ - ] Error: File not found: " ++ python_file);;
        sys_exit 1);;
  (if endswith python_file (cp ".py") then mret tt
   else print (cp "[ - ] Error: File must be a Python file (.py): "
               ++ python_file);;
        sys_exit 1);;
  let python_file := os_path_abspath h python_file in
  let work_dir := os_path_dirname h python_file in
  let script_name := os_path_basename h python_file in
  let base_name := fst (os_path_splitext h script_name) in
  let image_name :=
    or_else (arg_image_name a) (cp "py-" ++ str_lower h base_name) in
  let container_name :=
    or_else (arg_container_name a) (image_name ++ cp "-container") in
  print ([LF] ++ rule);;
  print (cp "Python to Docker Containerizer");;
  print rule;;
  print (cp "Python file:  " ++ python_file);;
  print (cp "Work dir:     " ++ work_dir);;
  print (cp "Image name:   " ++ image_name);;
  print (cp "Container:    " ++ container_name);;
  print (rule ++ [LF]);;
  print (cp " [ + ] Analyzing dependencies...");;
  imports ← parse_imports h python_file;
  let pip_packages := map_to_pip_packages (set_order h imports) in
  (match pip_packages with
   | _ :: _ =>
       print (cp "Detected " ++ str_of_nat (length pip_packages)
              ++ cp " external dependencies:");;
       for_each (sorted pip_packages) (fun pkg => print (cp "  - " ++ pkg))
   | [] => print (cp "No external dependencies detected (stdlib only)")
   end);;
  print [];;
  create_dockerfile h python_file pip_packages work_dir;;
  (match pip_packages with
   | _ :: _ => create_requirements_txt h pip_packages work_dir;; mret tt
   | [] => mret tt
   end);;
  print [];;
  built ← build_docker_image h work_dir image_name;
  (if (built : bool) then mret tt else sys_exit 1);;
  (if negb (arg_no_run a) then
     run_docker_container h image_name container_name;; mret tt
   else
     print (cp " Skipping container run (--no-run flag set)");;
     print (cp " To run manually: docker run --rm " ++ image_name));;
  print ([LF] ++ cp "Done!" ++ [LF]).

(** How the interpreter ends: normally (status 0), by [SystemExit], by
    [KeyboardInterrupt] (the process dies of the signal), or with a
    traceback (status 1). *)
Inductive status :=
  | Exited (code : Z)
  | Interrupted.

Definition status_of (r : result unit) : status :=
  match r with
  | Ret _ => Exited 0
  | Raise e =>
      match exn_class_of e with
      | SystemExit code => Exited code
      | KeyboardInterrupt => Interrupted
      | _ => Exited 1
      end
  end.

(** [if __name__ == '__main__': main()] *)
Definition run_script (h : host) (a : args) : status * world :=
  let (r, w) := main h a world0 in (status_of r, w).

(** ** Derived forms used in the proofs *)

Fixpoint take_while (p : char -> bool) (l : str) : str :=
  match l with
  | x :: l' => if p x then x :: take_while p l' else []
  | [] => []
  end.

Fixpoint drop_while (p : char -> bool) (l : str) : str :=
  match l with
  | x :: l' => if p x then drop_while p l' else l
  | [] => []
  end.

Fixpoint strip_prefix (s l : str) : option str :=
  match s, l with
  | [], _ => Some l
  | x :: s', y :: l' => if x =? y then strip_prefix s' l' else None
  | _ :: _, [] => None
  end.

(** The longest-run reading of [\s+([a-zA-Z0-9_]+)], after a keyword. *)
Definition greedy_tail (bh r2 : str) : outcome :=
  let gap := take_while is_space r2 in
  let r3 := drop_while is_space r2 in
  let name := take_while is_ident r3 in
  let r4 := drop_while is_ident r3 in
  match gap, name with
  | _ :: _, _ :: _ => Some (Cursor (rev name ++ rev gap ++ bh) r4, Some name)
  | _, _ => None
  end.

Definition greedy_keyword (kw bh r1 : str) : outcome :=
  match strip_prefix kw r1 with
  | Some r2 => greedy_tail (rev kw ++ bh) r2
  | None => None
  end.

(** The longest-run reading of [import_pattern]: no backtracking into the
    repetitions.  [import_pattern_greedy] proves that the engine computes
    this. *)
Definition greedy_match (c : cursor) : outcome :=
  if bol c then
    let ind := take_while is_space (ahead c) in
    let r1 := drop_while is_space (ahead c) in
    let bh := rev ind ++ behind c in
    match greedy_keyword (cp "import") bh r1 with
    | Some m => Some m
    | None => greedy_keyword (cp "from") bh r1
    end
  else None.

(** ** Notions the statements use *)

(** What makes a split of a text the longest run of [p]: the rest does not
    go on with a code point of [p]. *)
Definition stops (p : char -> bool) (r : str) : Prop :=
  match r with x :: _ => p x = false | [] => True end.

Abbreviation all p s := (Forall (fun x : char => p x = true) s).

Definition keyword (kw : str) : Prop :=
  kw = cp "import" \/ kw = cp "from".

(** The text before a position ends a line (or is empty). *)
Definition line_start (pre : str) : Prop :=
  pre = [] \/ last pre = Some LF.

(** [ind ++ kw ++ gap ++ name ++ rest] read as an import statement:
    indentation, keyword, white space, and the whole of the first
    identifier after it. *)
Record import_text (ind kw gap name rest : str) : Prop := ImportText {
  it_ind : all is_space ind;
  it_kw : keyword kw;
  it_gap : all is_space gap;
  it_gap_ne : gap <> [];
  it_name : all is_ident name;
  it_name_ne : name <> [];
  it_rest : stops is_ident rest
}.

(** A host whose files are what [read] says, where every write succeeds
    unless [write] says otherwise, and whose container engine answers
    [run]. *)
Definition simple_host (read : str -> exn + str)
    (write : str -> option exn)
    (run : list str -> option str -> option exn) : host :=
  {| os_path_isfile p := match read p with inr _ => true | inl _ => false end;
     os_path_abspath p := cp "/work/" ++ p;
     os_path_dirname _ := cp "/work";
     os_path_basename p := drop 6 p;
     os_path_splitext p := (take (length p - 3) p, drop (length p - 3) p);
     os_path_join a b := a ++ [SLASH] ++ b;
     str_lower p := p;
     read_text := read;
     write_text := write;
     subprocess_run := run;
     set_order := elements;
     set_order_perm := fun s => reflexivity (elements s) |}.

Definition no_such_file (p : str) : exn :=
  Exn FileNotFoundError (cp "[Errno 2] No such file or directory").

(** One file, [/work/app.py], holding [content]. *)
Definition one_file (content : str) (p : str) : exn + str :=
  if bool_decide (p = cp "/work/app.py" \/ p = cp "app.py") then inr content
  else inl (no_such_file p).

Definition file_host (content : str) : host :=
  simple_host (one_file content) (fun _ => None) (fun _ _ => None).

Definition APOSTROPHE : char := 39.
Definition TRIPLE : str := [QUOTE; QUOTE; QUOTE].

Definition occurs (name s : str) : Prop := exists a b, s = a ++ name ++ b.

(** [content] is some code, a triple-quoted string literal and more text,
    and [name] is nowhere but in the literal. *)
Definition only_in_string_literal (name content : str) : Prop :=
  exists before body after,
    content = before ++ TRIPLE ++ body ++ TRIPLE ++ after /\
    (QUOTE ∉ before) /\ (APOSTROPHE ∉ before) /\ (HASH ∉ before) /\
    ~ occurs TRIPLE body /\
    ~ occurs name before /\ ~ occurs name after.

Definition docstring_text : str :=
  cp "doc = " ++ TRIPLE ++ [LF] ++ cp "import fake" ++ [LF] ++ TRIPLE ++ [LF].


Definition warning (python_file : str) (e : exn) : str :=
  cp "Warning: Could not parse imports from " ++ python_file
  ++ cp ": " ++ exn_str e.

(** The names [main] derives from its arguments. *)
Definition abs_file (h : host) (a : args) : str :=
  os_path_abspath h (arg_python_file a).

Definition work_dir_of (h : host) (a : args) : str :=
  os_path_dirname h (abs_file h a).

Definition image_name_of (h : host) (a : args) : str :=
  or_else (arg_image_name a)
    (cp "py-" ++ str_lower h
       (fst (os_path_splitext h (os_path_basename h (abs_file h a))))).

Definition container_name_of (h : host) (a : args) : str :=
  or_else (arg_container_name a) (image_name_of h a ++ cp "-container").

(** What [main] does once the two files are written. *)
Definition build_and_run (h : host) (a : args) : M unit :=
  built ← build_docker_image h (work_dir_of h a) (image_name_of h a);
  (if (built : bool) then mret tt else sys_exit 1);;
  (if negb (arg_no_run a) then
     run_docker_container h (image_name_of h a) (container_name_of h a);;
     mret tt
   else
     print (cp " Skipping container run (--no-run flag set)");;
     print (cp " To run manually: docker run --rm " ++ image_name_of h a));;
  print ([LF] ++ cp "Done!" ++ [LF]).

(** The input is a file with the right suffix, reading it is not
    interrupted, and the two files can be written. *)
Record ready (h : host) (a : args) : Prop := Ready {
  ready_isfile : os_path_isfile h (arg_python_file a) = true;
  ready_suffix : endswith (arg_python_file a) (cp ".py") = true;
  ready_read : forall e,
    read_text h (abs_file h a) = inl e -> is_Exception e = true;
  ready_dockerfile :
    write_text h (os_path_join h (work_dir_of h a) (cp "Dockerfile")) = None;
  ready_requirements :
    write_text h (os_path_join h (work_dir_of h a) (cp "requirements.txt"))
    = None
}.

(** The exceptions of [subprocess.run] that [build_docker_image] and
    [run_docker_container] take for a failure. *)
Definition build_fails (e : exn) : bool :=
  is_CalledProcessError e || is_FileNotFoundError e.

Definition run_fails (e : exn) : bool :=
  is_CalledProcessError e || is_KeyboardInterrupt e.

Definition build_failure_message (e : exn) : str :=
  if is_CalledProcessError e
  then cp "[ - ] Failed to build Docker image: " ++ exn_str e
  else cp "[ - ] Docker is not installed or not in PATH".

Definition run_failure_message (e : exn) : str :=
  if is_CalledProcessError e
  then cp "[ + ] Container execution failed: " ++ exn_str e
  else [LF] ++ cp "[ + ] Container execution interrupted".

(** A host with the file [/work/app.py] and a container engine whose build
    and run commands end as given. *)
Definition docker_host (content : str) (build run : option exn) : host :=
  simple_host (one_file content) (fun _ => None)
    (fun argv _ =>
       if bool_decide (argv !! 1%nat = Some (cp "build")) then build else run).

Definition exit_125 : exn :=
  Exn CalledProcessError (cp "Command returned non-zero exit status 125.").

Definition sample : str :=
  ln (cp "import os") ++ ln (cp "import requests")
  ++ ln (cp "from bs4 import BeautifulSoup").

Definition app_py : args := Args (cp "app.py") false None None.

(** ** Notions of the further properties *)

(** The number of line feeds of a text. *)
Definition line_feeds (s : str) : nat :=
  length (filter (fun x => x = LF) s).

(** The lines of a text whose lines end with a line feed (a last line
    without one is kept too): how the manifest is read back. *)
Fixpoint read_lines (cur s : str) : list str :=
  match s with
  | [] => match cur with [] => [] | _ :: _ => [cur] end
  | x :: s' =>
      if x =? LF then cur :: read_lines [] s'
      else read_lines (cur ++ [x]) s'
  end.

(** The set [main] gets from [parse_imports]. *)
Definition imports_of (h : host) (a : args) : gset str :=
  match read_text h (abs_file h a) with
  | inr content => scan_imports content
  | inl _ => ∅
  end.

Definition packages_of (h : host) (a : args) : list str :=
  map_to_pip_packages (set_order h (imports_of h a)).

(** The files [main] has written when it starts the build. *)
Definition written_files (h : host) (a : args) : gmap str str :=
  let dockerfile :=
    <[os_path_join h (work_dir_of h a) (cp "Dockerfile")
      := dockerfile_content (os_path_basename h (abs_file h a))
           (packages_of h a)]> (∅ : gmap str str) in
  match packages_of h a with
  | [] => dockerfile
  | _ :: _ =>
      <[os_path_join h (work_dir_of h a) (cp "requirements.txt")
        := requirements_content (packages_of h a)]> dockerfile
  end.

(** A match object lies in [content]: its span is not empty and starts at
    a line start, and group 1 is the identifier the span ends with. *)
Definition span_in (content : str) (m : match_obj) : Prop :=
  (m_start m < m_end m <= length content)%nat /\
  (m_start m = 0%nat \/ content !! (m_start m - 1)%nat = Some LF) /\
  exists name,
    m_group1 m = Some name /\ name <> [] /\ all is_ident name /\
    take (length name) (drop (m_end m - length name) content) = name.

(** One match ends before the next starts. *)
Definition before (m m' : match_obj) : Prop := (m_end m <= m_start m')%nat.

(** ** The engine computes the longest-run reading *)

Section Runs.
Variable p : char -> bool.

Lemma take_drop_while l : take_while p l ++ drop_while p l = l.
Proof. induction l as [|x l IH]; simpl; [done|]. destruct (p x); simpl; by f_equal. Qed.

Lemma take_while_Forall l : Forall (fun x => p x = true) (take_while p l).
Proof.
  induction l as [|x l IH]; simpl; [constructor|].
  destruct (p x) eqn:E; constructor; done.
Qed.

Lemma drop_while_stop l x r : drop_while p l = x :: r -> p x = false.
Proof.
  induction l as [|y l IH]; simpl; [done|].
  destruct (p y) eqn:E; [done|]. by intros [= -> _].
Qed.

Lemma drop_while_stops l : stops p (drop_while p l).
Proof. unfold stops. destruct (drop_while p l) eqn:E; eauto using drop_while_stop. Qed.

Lemma take_while_app pre r :
  Forall (fun x => p x = true) pre -> stops p r ->
  take_while p (pre ++ r) = pre.
Proof.
  induction 1 as [|x pre Hx _ IH]; intros Hr; simpl.
  - destruct r as [|y r]; simpl in *; [done|]. by rewrite Hr.
  - rewrite Hx. f_equal. by apply IH.
Qed.

Lemma drop_while_app pre r :
  Forall (fun x => p x = true) pre -> stops p r ->
  drop_while p (pre ++ r) = r.
Proof.
  induction 1 as [|x pre Hx _ IH]; intros Hr; simpl.
  - destruct r as [|y r]; simpl in *; [done|]. by rewrite Hr.
  - rewrite Hx. by apply IH.
Qed.

(** When the rest of the pattern succeeds after the longest run, the
    repetition never gives anything back. *)
Lemma star_from_first bh ah g k m :
  k (Cursor (rev (take_while p ah) ++ bh) (drop_while p ah)) g = Some m ->
  star_from p bh ah g k = Some m.
Proof.
  revert bh. induction ah as [|x ah IH]; intros bh; simpl; [done|].
  destruct (p x) eqn:E; simpl; [|done].
  intros H. rewrite <- app_assoc in H. simpl in H. by rewrite (IH _ H).
Qed.

(** When the rest of the pattern cannot start with a code point of the
    class, giving back never helps. *)
Lemma star_from_greedy bh ah g k :
  (forall bh' x r, p x = true -> k (Cursor bh' (x :: r)) g = None) ->
  star_from p bh ah g k
  = k (Cursor (rev (take_while p ah) ++ bh) (drop_while p ah)) g.
Proof.
  intros Hk. revert bh. induction ah as [|x ah IH]; intros bh; simpl; [done|].
  destruct (p x) eqn:E; simpl; [|done].
  rewrite IH, <- app_assoc. simpl.
  destruct (k _ g) eqn:Ek; [done|]. by apply Hk.
Qed.

Lemma re_plus_first c g k m :
  take_while p (ahead c) <> [] ->
  k (Cursor (rev (take_while p (ahead c)) ++ behind c)
       (drop_while p (ahead c))) g = Some m ->
  re_plus p c g k = Some m.
Proof.
  unfold re_plus, re_seq, re_class, re_star. destruct c as [bh [|x ah]]; simpl; [done|].
  destruct (p x) eqn:E; simpl; [|done].
  intros _ H. apply star_from_first. by rewrite <- app_assoc in H.
Qed.

Lemma re_plus_greedy c g k :
  (forall bh' x r, p x = true -> k (Cursor bh' (x :: r)) g = None) ->
  re_plus p c g k
  = match take_while p (ahead c) with
    | [] => None
    | _ :: _ =>
        k (Cursor (rev (take_while p (ahead c)) ++ behind c)
             (drop_while p (ahead c))) g
    end.
Proof.
  intros Hk.
  unfold re_plus, re_seq, re_class, re_star. destruct c as [bh [|x ah]]; simpl; [done|].
  destruct (p x) eqn:E; simpl; [|done].
  rewrite star_from_greedy by done. by rewrite <- app_assoc.
Qed.

Lemma re_plus_empty c g k :
  take_while p (ahead c) = [] -> re_plus p c g k = None.
Proof.
  unfold re_plus, re_seq, re_class. destruct c as [bh [|x ah]]; simpl; [done|].
  by destruct (p x).
Qed.
End Runs.

Lemma re_lit_strip s c g k :
  re_lit s c g k
  = match strip_prefix s (ahead c) with
    | Some r => k (Cursor (rev s ++ behind c) r) g
    | None => None
    end.
Proof.
  revert c. induction s as [|x s IH]; intros [bh ah]; simpl; [done|].
  unfold re_seq, re_class. simpl. destruct ah as [|y ah]; [done|].
  destruct (x =? y) eqn:E; [|done].
  apply N.eqb_eq in E as <-. rewrite IH. simpl. by rewrite <- app_assoc.
Qed.

Lemma strip_prefix_app s l r : strip_prefix s l = Some r -> l = s ++ r.
Proof.
  revert l. induction s as [|x s IH]; intros [|y l]; simpl; try congruence.
  destruct (x =? y) eqn:E; [|done]. apply N.eqb_eq in E as <-.
  intros H. f_equal. by apply IH.
Qed.

Lemma strip_prefix_here s r : strip_prefix s (s ++ r) = Some r.
Proof. induction s as [|x s IH]; simpl; [done|]. by rewrite N.eqb_refl. Qed.

(** Turn the boolean tests of the character classes into arithmetic. *)
Ltac class_arith :=
  unfold is_space, is_ident, LF, HASH in *;
  repeat match goal with
  | H : _ = false |- _ => apply Bool.not_true_iff_false in H
  | |- _ = false => apply Bool.not_true_iff_false; intros ?
  end;
  rewrite ?Bool.orb_true_iff, ?Bool.andb_true_iff, ?N.leb_le, ?N.eqb_eq in *;
  try lia.

Lemma space_not_ident x : is_space x = true -> is_ident x = false.
Proof. intros H. class_arith. Qed.

Lemma take_length_take_while p (l : str) :
  take (length (take_while p l)) l = take_while p l.
Proof.
  rewrite <- (take_drop_while p l) at 2. by rewrite take_app_length.
Qed.

Lemma greedy_tail_correct bh r2 :
  re_seq (re_plus is_space) (re_group (re_plus is_ident))
    (Cursor bh r2) None (fun c' g => Some (c', g))
  = greedy_tail bh r2.
Proof.
  unfold re_seq, greedy_tail. rewrite re_plus_greedy; simpl.
  - destruct (take_while is_space r2) as [|s gap] eqn:Egap; [done|].
    unfold re_group.
    destruct (take_while is_ident (drop_while is_space r2)) as [|a name] eqn:En.
    + by apply re_plus_empty.
    + erewrite re_plus_first; [done| simpl; by rewrite En |].
      simpl. f_equal. f_equal.
      * by rewrite En.
      * f_equal. unfold offset. simpl. rewrite En.
        transitivity (take (length (a :: name)) (drop_while is_space r2)).
        { f_equal. simpl. rewrite !length_app, !length_rev. simpl. lia. }
        rewrite <- En. apply take_length_take_while.
  - intros bh' x r Hx. unfold re_group. apply re_plus_empty. simpl.
    by rewrite (space_not_ident x Hx).
Qed.

Lemma greedy_keyword_correct kw bh r1 :
  re_seq (re_lit kw)
    (re_seq (re_plus is_space) (re_group (re_plus is_ident)))
    (Cursor bh r1) None (fun c' g => Some (c', g))
  = greedy_keyword kw bh r1.
Proof.
  unfold re_seq at 1. rewrite re_lit_strip. unfold greedy_keyword. simpl.
  destruct (strip_prefix kw r1); [|done]. apply greedy_tail_correct.
Qed.

(** The backtracking engine and the longest-run reading agree on
    [import_pattern], at every cursor. *)
Lemma import_pattern_greedy c :
  match_at import_pattern c = greedy_match c.
Proof.
  unfold match_at, import_pattern, greedy_match.
  unfold re_seq at 1. unfold re_bol. destruct (bol c); [|done].
  unfold re_seq at 1. unfold re_star. rewrite star_from_greedy.
  - unfold re_seq at 1. unfold re_alt.
    rewrite <- !greedy_keyword_correct. done.
  - intros bh' x r Hx. unfold re_seq at 1. unfold re_alt.
    rewrite !re_lit_strip. simpl ahead.
    destruct (strip_prefix (cp "import") (x :: r)) eqn:E1.
    { apply strip_prefix_app in E1. injection E1 as Ex _. subst x.
      vm_compute in Hx. discriminate. }
    destruct (strip_prefix (cp "from") (x :: r)) eqn:E2; [|done].
    apply strip_prefix_app in E2. injection E2 as Ex _. subst x.
    vm_compute in Hx. discriminate.
Qed.

(** ** What a match looks like *)

Lemma bol_line_start c : bol c = true <-> line_start (rev (behind c)).
Proof.
  unfold bol, line_start. destruct (behind c) as [|x bh]; simpl.
  - split; auto.
  - rewrite last_snoc. split.
    + intros ->%N.eqb_eq. by right.
    + intros [H|[= ->]]; [|done]. by destruct (rev bh).
Qed.

Lemma greedy_tail_shape bh r2 c' g :
  greedy_tail bh r2 = Some (c', g) ->
  exists gap name,
    r2 = gap ++ name ++ ahead c' /\
    behind c' = rev name ++ rev gap ++ bh /\
    g = Some name /\
    all is_space gap /\ gap <> [] /\
    all is_ident name /\ name <> [] /\ stops is_ident (ahead c').
Proof.
  unfold greedy_tail.
  destruct (take_while is_space r2) as [|s gap] eqn:Eg; [done|].
  destruct (take_while is_ident (drop_while is_space r2)) as [|a name] eqn:En; [done|].
  intros [= <- <-]. exists (s :: gap), (a :: name). simpl ahead. simpl behind.
  split_and!; try done.
  - rewrite <- Eg, <- En.
    by rewrite (take_drop_while is_ident), (take_drop_while is_space).
  - rewrite <- Eg. apply take_while_Forall.
  - rewrite <- En. apply take_while_Forall.
  - apply drop_while_stops.
Qed.

Lemma greedy_match_shape c c' g :
  greedy_match c = Some (c', g) ->
  exists ind kw gap name,
    bol c = true /\
    ahead c = ind ++ kw ++ gap ++ name ++ ahead c' /\
    behind c' = rev (ind ++ kw ++ gap ++ name) ++ behind c /\
    g = Some name /\
    import_text ind kw gap name (ahead c').
Proof.
  unfold greedy_match. destruct (bol c) eqn:Eb; [|done].
  set (ind := take_while is_space (ahead c)).
  set (r1 := drop_while is_space (ahead c)).
  assert (Hsplit : ahead c = ind ++ r1) by (symmetry; apply take_drop_while).
  assert (Hind : all is_space ind) by apply take_while_Forall.
  assert (Hkw : forall kw, keyword kw ->
            greedy_keyword kw (rev ind ++ behind c) r1 = Some (c', g) ->
            exists ind kw gap name,
              true = true /\
              ahead c = ind ++ kw ++ gap ++ name ++ ahead c' /\
              behind c' = rev (ind ++ kw ++ gap ++ name) ++ behind c /\
              g = Some name /\
              import_text ind kw gap name (ahead c')).
  { intros kw Hk. unfold greedy_keyword.
    destruct (strip_prefix kw r1) as [r2|] eqn:Es; [|done].
    apply strip_prefix_app in Es.
    intros (gap & name & Hr2 & Hbh & -> & ? & ? & ? & ? & ?)%greedy_tail_shape.
    exists ind, kw, gap, name. split_and!; try done.
    - by rewrite Hsplit, Es, Hr2.
    - rewrite Hbh, !rev_app_distr. by rewrite <- !app_assoc. }
  destruct (greedy_keyword (cp "import") _ r1) as [m|] eqn:E1.
  - intros [= ->]. eapply Hkw; [by left|done].
  - intros E2. eapply Hkw; [by right|done].
Qed.

(** The converse: at the start of a line, an import statement is matched,
    and group 1 is its first identifier. *)
Lemma greedy_match_import_text bh ind kw gap name rest :
  bol (Cursor bh (ind ++ kw ++ gap ++ name ++ rest)) = true ->
  import_text ind kw gap name rest ->
  greedy_match (Cursor bh (ind ++ kw ++ gap ++ name ++ rest))
  = Some (Cursor (rev (ind ++ kw ++ gap ++ name) ++ bh) rest, Some name).
Proof.
  intros Hb [Hind Hkw Hgap Hgne Hname Hnne Hrest].
  unfold greedy_match. rewrite Hb. simpl ahead. simpl behind.
  assert (Hk1 : stops is_space (kw ++ gap ++ name ++ rest)).
  { destruct Hkw as [-> | ->]; reflexivity. }
  rewrite take_while_app, drop_while_app by done.
  assert (Htail : greedy_tail (rev kw ++ rev ind ++ bh) (gap ++ name ++ rest)
                  = Some (Cursor (rev (ind ++ kw ++ gap ++ name) ++ bh) rest,
                          Some name)).
  { unfold greedy_tail.
    assert (stops is_space (name ++ rest)).
    { destruct name as [|a name]; [done|]. simpl.
      apply Forall_cons in Hname as [Ha _].
      destruct (is_space a) eqn:Es; [|done].
      apply space_not_ident in Es. congruence. }
    rewrite take_while_app, drop_while_app by done.
    rewrite take_while_app, drop_while_app by done.
    destruct gap; [done|]. destruct name; [done|].
    rewrite !rev_app_distr. by rewrite <- !app_assoc. }
  unfold greedy_keyword.
  destruct Hkw as [-> | ->].
  - by rewrite strip_prefix_here, Htail.
  - rewrite strip_prefix_here, Htail. reflexivity.
Qed.

(** ** The scanner *)

Lemma match_at_shape c c' g :
  match_at import_pattern c = Some (c', g) ->
  exists ind kw gap name,
    bol c = true /\
    ahead c = ind ++ kw ++ gap ++ name ++ ahead c' /\
    behind c' = rev (ind ++ kw ++ gap ++ name) ++ behind c /\
    g = Some name /\
    import_text ind kw gap name (ahead c').
Proof. rewrite import_pattern_greedy. apply greedy_match_shape. Qed.

(** A match consumes text and leaves the subject as it is. *)
Lemma match_at_progress c c' g :
  match_at import_pattern c = Some (c', g) ->
  subject c' = subject c /\ (length (ahead c') < length (ahead c))%nat.
Proof.
  intros (ind & kw & gap & name & _ & Ha & Hb & _ & Ht)%match_at_shape.
  split.
  - unfold subject. rewrite Hb, Ha, rev_app_distr, rev_involutive.
    by rewrite <- !app_assoc.
  - rewrite Ha, !length_app. destruct name; [by destruct Ht|]. simpl. lia.
Qed.

(** More fuel than code points ahead changes nothing. *)
Lemma search_fuel_irrelevant f f' c :
  (length (ahead c) < f)%nat -> (length (ahead c) < f')%nat ->
  search import_pattern f c = search import_pattern f' c.
Proof.
  revert f' c. induction f as [|f IH]; intros [|f'] c Hf Hf'; try lia.
  simpl. destruct (match_at import_pattern c) as [[c' g]|] eqn:E.
  - apply match_at_progress in E as E'. destruct E' as [_ Hlt].
    f_equal. apply IH; lia.
  - destruct c as [bh [|x ah]]; simpl in *; [done|]. apply IH; simpl; lia.
Qed.

Lemma finditer_from_search f c :
  (length (ahead c) < f)%nat ->
  search import_pattern f c = finditer_from import_pattern c.
Proof. intros. apply search_fuel_irrelevant; simpl; lia. Qed.

(** The two steps of the scanner, without fuel. *)
Lemma finditer_from_match c c' g :
  match_at import_pattern c = Some (c', g) ->
  finditer_from import_pattern c
  = Match (offset c) (offset c') g :: finditer_from import_pattern c'.
Proof.
  intros E. unfold finditer_from at 1. simpl. rewrite E. f_equal.
  apply match_at_progress in E as [_ Hlt]. by apply finditer_from_search.
Qed.

Lemma finditer_from_skip bh x ah :
  match_at import_pattern (Cursor bh (x :: ah)) = None ->
  finditer_from import_pattern (Cursor bh (x :: ah))
  = finditer_from import_pattern (Cursor (x :: bh) ah).
Proof.
  intros E. unfold finditer_from at 1. simpl search. rewrite E. reflexivity.
Qed.

(** Every match object comes from a match of the pattern at some cursor of
    the subject. *)
Lemma search_matches f c m :
  m ∈ search import_pattern f c ->
  exists c0 c' g,
    subject c0 = subject c /\
    match_at import_pattern c0 = Some (c', g) /\
    m = Match (offset c0) (offset c') g.
Proof.
  revert c. induction f as [|f IH]; intros c; simpl; [by intros ?%elem_of_nil|].
  destruct (match_at import_pattern c) as [[c' g]|] eqn:E.
  - intros [->|Hin]%elem_of_cons; [by exists c, c', g|].
    apply IH in Hin as (c0 & c1 & g1 & Hs & ? & ?).
    apply match_at_progress in E as [Hs' _].
    exists c0, c1, g1. split_and!; [congruence|done|done].
  - destruct c as [bh [|x ah]]; simpl; [by intros ?%elem_of_nil|].
    intros Hin. apply IH in Hin as (c0 & c1 & g1 & Hs & ? & ?).
    exists c0, c1, g1. split_and!; [|done|done].
    rewrite Hs. unfold subject. simpl. by rewrite <- app_assoc.
Qed.

Lemma elem_of_foldl_add_group name acc ms :
  name ∈ foldl add_group acc ms <->
  name ∈ acc \/ exists m, m ∈ ms /\ m_group1 m = Some name.
Proof.
  revert acc. induction ms as [|m ms IH]; intros acc; simpl.
  - split; [auto|]. intros [?|(m & []%elem_of_nil & _)]; done.
  - rewrite IH. unfold add_group at 1. split.
    + intros [Hin|(m' & ? & ?)].
      * destruct (m_group1 m) as [p|] eqn:Em; [|auto].
        apply elem_of_union in Hin as [->%elem_of_singleton|?]; [|auto].
        right. exists m. split; [left|done].
      * right. exists m'. split; [by right|done].
    + intros [Hin|(m' & [->|?]%elem_of_cons & Hm)].
      * left. destruct (m_group1 m); set_solver.
      * left. rewrite Hm. set_solver.
      * right. by exists m'.
Qed.

Lemma elem_of_scan_imports name content :
  name ∈ scan_imports content <->
  exists m, m ∈ finditer import_pattern content /\ m_group1 m = Some name.
Proof.
  unfold scan_imports. rewrite elem_of_foldl_add_group. set_solver.
Qed.

(** ** Lines and comments *)

(** White space ends with a stretch that has no line feed, after the last
    line feed (if any). *)
Lemma split_last_line ind :
  all is_space ind ->
  exists i1 i2,
    ind = i1 ++ i2 /\ line_start i1 /\ (LF ∉ i2) /\ all is_space i2.
Proof.
  induction ind as [|x ind IH] using rev_ind; intros Hall.
  - exists [], []. split_and!; [done|by left|apply not_elem_of_nil|done].
  - apply Forall_app in Hall as [Hind Hx].
    destruct (decide (x = LF)) as [->|Hne].
    + exists (ind ++ [LF]), []. rewrite app_nil_r.
      split_and!; [done|right; apply last_snoc|apply not_elem_of_nil|constructor].
    + destruct (IH Hind) as (i1 & i2 & -> & H1 & H2 & H3).
      exists i1, (i2 ++ [x]). rewrite app_assoc. split_and!; [done|done| |].
      * rewrite elem_of_app, list_elem_of_singleton. naive_solver.
      * by apply Forall_app.
Qed.

Lemma line_start_app pre i1 :
  line_start pre -> line_start i1 -> line_start (pre ++ i1).
Proof.
  intros Hp [->|Hl]; [by rewrite app_nil_r|].
  right. destruct i1 as [|x i1] using rev_ind; [done|].
  rewrite app_assoc, last_snoc. by rewrite last_snoc in Hl.
Qed.

(** A stretch without line feed that ends where [m] ends, after a line
    start, lies inside [m]. *)
Lemma same_line_suffix pre m a b :
  pre ++ m = a ++ b -> line_start pre -> LF ∉ b -> exists a', m = a' ++ b.
Proof.
  intros Heq Hpre Hb. symmetry in Heq.
  apply app_eq_inv in Heq as [(k & -> & ->)|(k & -> & ->)]; [by exists k|].
  destruct k as [|x k _] using rev_ind; [by exists []|].
  destruct Hpre as [Hnil|Hlast].
  - apply app_eq_nil in Hnil as [_ Hk]. by destruct k.
  - rewrite app_assoc, last_snoc in Hlast. injection Hlast as ->.
    exfalso. apply Hb. rewrite !elem_of_app, list_elem_of_singleton. auto.
Qed.

Lemma keyword_no_hash kw : keyword kw -> HASH ∉ kw.
Proof.
  intros [-> | ->] Hin; simpl in Hin;
    repeat (apply elem_of_cons in Hin as [Hin|Hin]; [discriminate Hin|]);
    by apply elem_of_nil in Hin.
Qed.

Lemma all_space_no_hash s : all is_space s -> HASH ∉ s.
Proof.
  intros Hall Hin. rewrite Forall_forall in Hall.
  apply Hall in Hin. vm_compute in Hin. discriminate.
Qed.

(** ** What the extractor captures *)

Lemma parse_imports_read h python_file content w :
  read_text h python_file = inr content ->
  parse_imports h python_file w = (Ret (scan_imports content), w).
Proof.
  intros H. unfold parse_imports, try_except, open_read. simpl.
  unfold mbind, M_bind, bind. by rewrite H.
Qed.

Lemma parse_imports_returns h python_file w imports w' :
  parse_imports h python_file w = (Ret imports, w') ->
  (exists content,
     read_text h python_file = inr content /\ imports = scan_imports content)
  \/ imports = ∅.
Proof.
  destruct (read_text h python_file) as [e|content] eqn:E.
  - unfold parse_imports, try_except, open_read, mbind, M_bind, bind, handle.
    rewrite E. simpl. destruct (is_Exception e); simpl.
    + intros [= <- _]. by right.
    + unfold raise. discriminate.
  - rewrite (parse_imports_read _ _ content) by done.
    intros [= <- _]. left. by exists content.
Qed.

(** C1, as amended: every name [parse_imports] returns is the whole first
    identifier after an [import] or [from] keyword that is the first thing
    on its line but for white space, and no [#] stands before it on its
    line.  (Nothing is said of string literals: the pattern does not know
    them.) *)
Theorem parse_imports_first_segment h python_file w imports w' name :
  parse_imports h python_file w = (Ret imports, w') ->
  name ∈ imports ->
  exists content pre ind kw gap post,
    read_text h python_file = inr content /\
    content = pre ++ ind ++ kw ++ gap ++ name ++ post /\
    line_start pre /\ (LF ∉ ind) /\
    import_text ind kw gap name post /\
    (forall a b, pre ++ ind ++ kw ++ gap = a ++ b -> LF ∉ b -> HASH ∉ b).
Proof.
  intros [(content & Hread & ->)| ->]%parse_imports_returns Hin;
    [|by apply not_elem_of_empty in Hin].
  apply elem_of_scan_imports in Hin as (m & Hm & Hg).
  apply search_matches in Hm as (c0 & c' & g & Hs & Hmatch & ->).
  simpl in Hg. subst g.
  apply match_at_shape in Hmatch
    as (ind & kw & gap & name' & Hbol & Ha & _ & [= <-] & Ht).
  destruct Ht as [Hind Hkw Hgap Hgne Hname Hnne Hrest].
  destruct (split_last_line ind Hind) as (i1 & i2 & -> & Hi1 & Hi2 & Hsp).
  apply bol_line_start in Hbol.
  assert (Hls : line_start (rev (behind c0) ++ i1)) by by apply line_start_app.
  exists content, (rev (behind c0) ++ i1), i2, kw, gap, (ahead c').
  split_and!; try done.
  - unfold subject in Hs. simpl in Hs. rewrite <- Hs, Ha.
    by rewrite <- !app_assoc.
  - intros a b Heq Hb Hhash.
    apply same_line_suffix in Heq as (a' & Heq); [|done|done].
    assert (Hin : HASH ∈ i2 ++ kw ++ gap).
    { rewrite Heq, elem_of_app. by right. }
    rewrite !elem_of_app in Hin. destruct Hin as [Hin|[Hin|Hin]].
    + by apply all_space_no_hash in Hin.
    + by apply keyword_no_hash in Hin.
    + by apply all_space_no_hash in Hin.
Qed.

Lemma parse_imports_first_segment_witness :
  exists content pre ind kw gap post,
    read_text (file_host (cp "from pkg.sub import x")) (cp "app.py")
    = inr content /\
    content = pre ++ ind ++ kw ++ gap ++ cp "pkg" ++ post /\
    line_start pre /\ (LF ∉ ind) /\
    import_text ind kw gap (cp "pkg") post /\
    (forall a b, pre ++ ind ++ kw ++ gap = a ++ b -> LF ∉ b -> HASH ∉ b).
Proof.
  eapply (parse_imports_first_segment
            (file_host (cp "from pkg.sub import x")) (cp "app.py") world0
            _ _ (cp "pkg")).
  - apply parse_imports_read. reflexivity.
  - apply (bool_decide_unpack _). vm_compute. exact I.
Defined.

Lemma occurs_head x name s : occurs (x :: name) s -> x ∈ s.
Proof.
  intros (a & b & ->). rewrite elem_of_app. right. simpl. left.
Qed.

(** Membership in a list that is written out. *)
Ltac in_literal H :=
  simpl in H;
  repeat (apply elem_of_cons in H as [H|H]; [discriminate H|]);
  by apply elem_of_nil in H.

(** C1 as stated fails: the only occurrence of [fake] is inside a
    triple-quoted string literal, and [parse_imports] returns it. *)
Lemma string_literal_import_is_captured :
  exists imports w,
    parse_imports (file_host docstring_text) (cp "app.py") world0
    = (Ret imports, w) /\
    cp "fake" ∈ imports /\
    only_in_string_literal (cp "fake") docstring_text.
Proof.
  eexists _, _. split_and!.
  - apply parse_imports_read. reflexivity.
  - apply (bool_decide_unpack _). vm_compute. exact I.
  - exists (cp "doc = "), ([LF] ++ cp "import fake" ++ [LF]), [LF].
    split_and!.
    + reflexivity.
    + intros H. in_literal H.
    + intros H. in_literal H.
    + intros H. in_literal H.
    + intros H%occurs_head. in_literal H.
    + intros H%occurs_head. in_literal H.
    + intros H%occurs_head. in_literal H.
Qed.

(** ** Walking along a line *)

Lemma match_at_not_bol c :
  bol c = false -> match_at import_pattern c = None.
Proof. intros H. rewrite import_pattern_greedy. unfold greedy_match. by rewrite H. Qed.



(** Past the first code point of a line, no match starts before the next
    line feed. *)
Lemma finditer_from_same_line bh x s tail :
  x <> LF -> LF ∉ s ->
  finditer_from import_pattern (Cursor (x :: bh) (s ++ tail))
  = finditer_from import_pattern (Cursor (rev s ++ x :: bh) tail).
Proof.
  revert x bh. induction s as [|y s IH]; intros x bh Hx Hs; [done|].
  apply not_elem_of_cons in Hs as [Hy Hs].
  simpl app. rewrite finditer_from_skip.
  - rewrite IH by done. simpl. by rewrite <- app_assoc.
  - apply match_at_not_bol. simpl. by apply N.eqb_neq.
Qed.

(** A stretch of a line where no match starts at its first code point is
    passed over. *)
Lemma finditer_from_pass bh s tail :
  s <> [] -> LF ∉ s ->
  match_at import_pattern (Cursor bh (s ++ tail)) = None ->
  finditer_from import_pattern (Cursor bh (s ++ tail))
  = finditer_from import_pattern (Cursor (rev s ++ bh) tail).
Proof.
  destruct s as [|x s]; [done|]. intros _ [Hx Hs]%not_elem_of_cons Hm.
  simpl app. rewrite finditer_from_skip by done.
  rewrite finditer_from_same_line by done. simpl. by rewrite <- app_assoc.
Qed.



Lemma keyword_no_LF kw : keyword kw -> LF ∉ kw.
Proof. intros [-> | ->] Hin; in_literal Hin. Qed.

Lemma keyword_ne kw : keyword kw -> kw <> [].
Proof. by intros [-> | ->]. Qed.

Lemma all_ident_no_LF s : all is_ident s -> LF ∉ s.
Proof.
  intros Hall Hin. rewrite Forall_forall in Hall.
  apply Hall in Hin. vm_compute in Hin. discriminate.
Qed.



Lemma bol_after_ident s z bh ah :
  is_ident z = true -> bol (Cursor (rev (s ++ [z]) ++ bh) ah) = false.
Proof.
  intros Hz. rewrite rev_app_distr. simpl.
  apply N.eqb_neq. intros Heq. subst z. vm_compute in Hz. discriminate.
Qed.



(** ** The resolver *)

Lemma foldl_resolve_step acc imports :
  foldl resolve_step acc imports
  = acc ++ (pip_name <$> filter (fun imp => imp ∉ stdlib) imports).
Proof.
  revert acc. induction imports as [|imp l IH]; intros acc; simpl.
  - by rewrite app_nil_r.
  - rewrite IH. unfold resolve_step. rewrite filter_cons.
    case_bool_decide; case_decide; try done.
    simpl. by rewrite <- app_assoc.
Qed.

(** The loop is a filter followed by a map. *)
Lemma map_to_pip_packages_filter imports :
  map_to_pip_packages imports
  = pip_name <$> filter (fun imp => imp ∉ stdlib) imports.
Proof. apply foldl_resolve_step. Qed.

Lemma package_mapping_lookup k v :
  package_mapping !! k = Some v <-> (k, v) ∈ package_mapping_items.
Proof.
  unfold package_mapping. symmetry. apply elem_of_list_to_map.
  apply (bool_decide_unpack _). vm_compute. exact I.
Qed.

(** The facts about the two tables that the proofs use, each checked by
    running through the tables. *)
Lemma package_mapping_facts :
  Forall (fun kv : str * str =>
            (kv.1 ∉ stdlib) /\ (kv.2 ∉ stdlib) /\
            package_mapping !! kv.2 = None /\
            kv.1 <> kv.2 /\
            Forall (fun kv' : str * str => kv.2 = kv'.2 -> kv.1 = kv'.1)
              package_mapping_items)
    package_mapping_items.
Proof. apply (bool_decide_unpack _). vm_compute. exact I. Qed.

Lemma package_mapping_fact k v :
  package_mapping !! k = Some v ->
  (k ∉ stdlib) /\ (v ∉ stdlib) /\ package_mapping !! v = None /\ k <> v /\
  (forall k', package_mapping !! k' = Some v -> k = k').
Proof.
  intros Hkv%package_mapping_lookup.
  pose proof package_mapping_facts as HF. rewrite Forall_forall in HF.
  destruct (HF _ Hkv) as (H1 & H2 & H3 & H4 & H5). simpl in *.
  split_and!; try done.
  intros k' Hk'%package_mapping_lookup. rewrite Forall_forall in H5.
  by apply (H5 _ Hk').
Qed.

(** A package name is never a standard-library name. *)
Lemma pip_name_not_stdlib imp : imp ∉ stdlib -> pip_name imp ∉ stdlib.
Proof.
  intros Himp. unfold pip_name.
  destruct (package_mapping !! imp) as [v|] eqn:E; simpl; [|done].
  by apply package_mapping_fact in E as (_ & ? & _).
Qed.

Lemma elem_of_set_order (h : host) (s : gset str) (x : str) : x ∈ set_order h s <-> x ∈ s.
Proof. rewrite (set_order_perm h s). apply elem_of_elements. Qed.

Lemma NoDup_set_order (h : host) (s : gset str) : NoDup (set_order h s).
Proof. rewrite (set_order_perm h s). apply NoDup_elements. Qed.

Lemma filter_set_order (h : host) (s : gset str) :
  filter (fun imp => imp ∉ stdlib) (set_order h s) ≡ₚ elements (s ∖ stdlib).
Proof.
  apply NoDup_Permutation.
  - apply NoDup_filter, NoDup_set_order.
  - apply NoDup_elements.
  - intros x. rewrite list_elem_of_filter, elem_of_set_order,
      elem_of_elements, elem_of_difference. tauto.
Qed.

(** C2: whatever the order in which the set is walked, the package list has
    one entry for each name of the set that is not a standard-library name,
    in that order, and none for the others; no entry is a standard-library
    name. *)
Theorem resolver_drops_exactly_stdlib (h : host) (s : gset str) :
  let pl := map_to_pip_packages (set_order h s) in
  pl = pip_name <$> filter (fun imp => imp ∉ stdlib) (set_order h s) /\
  length pl = size (s ∖ stdlib) /\
  (forall p, p ∈ pl <-> exists imp, imp ∈ s /\ (imp ∉ stdlib) /\ p = pip_name imp) /\
  (forall p, p ∈ pl -> p ∉ stdlib).
Proof.
  intros pl. unfold pl. rewrite map_to_pip_packages_filter.
  assert (Hin : forall p,
    p ∈ pip_name <$> filter (fun imp => imp ∉ stdlib) (set_order h s) <->
    exists imp, imp ∈ s /\ (imp ∉ stdlib) /\ p = pip_name imp).
  { intros p. rewrite list_elem_of_fmap. split.
    - intros (imp & -> & Himp). apply list_elem_of_filter in Himp as [? ?].
      exists imp. by rewrite <- (elem_of_set_order h).
    - intros (imp & ? & ? & ->). exists imp. split; [done|].
      apply list_elem_of_filter. by rewrite elem_of_set_order. }
  split_and!; [done| |done|].
  - rewrite length_fmap, filter_set_order. reflexivity.
  - intros p (imp & _ & ? & ->)%Hin. by apply pip_name_not_stdlib.
Qed.

(** C3: a name of the set that is not a standard-library name is emitted
    as the alias table translates it, and as it is when the table has no
    entry for it; the seven import names of the table are never emitted
    raw. *)
Theorem resolver_translates_aliases (h : host) (s : gset str) (imp : str) :
  imp ∈ s -> imp ∉ stdlib ->
  let pl := map_to_pip_packages (set_order h s) in
  (pip_name imp ∈ pl) /\
  (forall v, package_mapping !! imp = Some v -> pip_name imp = v /\ imp ∉ pl) /\
  (package_mapping !! imp = None -> pip_name imp = imp) /\
  pip_name (cp "cv2") = cp "opencv-python" /\
  pip_name (cp "PIL") = cp "Pillow" /\
  pip_name (cp "sklearn") = cp "scikit-learn" /\
  pip_name (cp "yaml") = cp "pyyaml" /\
  pip_name (cp "dotenv") = cp "python-dotenv" /\
  pip_name (cp "bs4") = cp "beautifulsoup4" /\
  pip_name (cp "dateutil") = cp "python-dateutil".
Proof.
  intros Hs Hstd pl.
  destruct (resolver_drops_exactly_stdlib h s) as (_ & _ & Hin & _).
  fold pl in Hin.
  split_and!; try (vm_compute; reflexivity).
  - apply Hin. by exists imp.
  - intros v Hv. split; [unfold pip_name; by rewrite Hv|].
    intros (imp' & _ & _ & Heq)%Hin. unfold pip_name in Heq.
    destruct (package_mapping !! imp') as [v'|] eqn:E'; simpl in Heq.
    + subst v'. apply package_mapping_fact in E' as (_ & _ & Hnone & _).
      congruence.
    + congruence.
  - intros Hnone. unfold pip_name. by rewrite Hnone.
Qed.

Lemma resolver_translates_aliases_witness :
  let pl := map_to_pip_packages
              (set_order (file_host []) {[ cp "cv2"; cp "numpy" ]}) in
  (pip_name (cp "cv2") ∈ pl) /\
  (forall v, package_mapping !! cp "cv2" = Some v ->
             pip_name (cp "cv2") = v /\ cp "cv2" ∉ pl) /\
  (package_mapping !! cp "cv2" = None -> pip_name (cp "cv2") = cp "cv2") /\
  pip_name (cp "cv2") = cp "opencv-python" /\
  pip_name (cp "PIL") = cp "Pillow" /\
  pip_name (cp "sklearn") = cp "scikit-learn" /\
  pip_name (cp "yaml") = cp "pyyaml" /\
  pip_name (cp "dotenv") = cp "python-dotenv" /\
  pip_name (cp "bs4") = cp "beautifulsoup4" /\
  pip_name (cp "dateutil") = cp "python-dateutil".
Proof.
  apply (resolver_translates_aliases
           (file_host []) {[ cp "cv2"; cp "numpy" ]} (cp "cv2")).
  - apply (bool_decide_unpack _). vm_compute. exact I.
  - apply (bool_decide_unpack _). vm_compute. exact I.
Defined.

Lemma NoDup_fmap_inj_on {A B} (f : A -> B) (l : list A) x y :
  NoDup (f <$> l) -> x ∈ l -> y ∈ l -> f x = f y -> x = y.
Proof.
  intros Hnd [i Hi]%list_elem_of_lookup [j Hj]%list_elem_of_lookup Hf.
  rewrite NoDup_alt in Hnd.
  assert (i = j) as ->.
  { apply (Hnd i j (f x)); rewrite list_lookup_fmap.
    - by rewrite Hi.
    - by rewrite Hj, Hf. }
  congruence.
Qed.

(** Two names of the set get the same package name only when one is an
    import name of the alias table and the other its package name. *)
Lemma pip_name_collision x y :
  pip_name x = pip_name y -> x <> y ->
  (package_mapping !! x = Some y) \/ (package_mapping !! y = Some x).
Proof.
  unfold pip_name. intros Heq Hne.
  destruct (package_mapping !! x) as [vx|] eqn:Ex;
    destruct (package_mapping !! y) as [vy|] eqn:Ey; simpl in Heq; subst.
  - apply package_mapping_fact in Ex as (_ & _ & _ & _ & Hinj).
    by apply Hinj in Ey.
  - by left.
  - by right.
  - done.
Qed.

(** C4, as amended: the package list has no package name twice as long as
    the set does not hold both an import name of the alias table and the
    package name the table gives it.  (The loop appends without looking at
    what it has appended.) *)
Theorem resolver_no_duplicates (h : host) (s : gset str) :
  (forall k v, package_mapping !! k = Some v -> k ∈ s -> v ∉ s) ->
  NoDup (map_to_pip_packages (set_order h s)).
Proof.
  intros Hpair. rewrite map_to_pip_packages_filter.
  apply NoDup_fmap_2_strong; [|apply NoDup_filter, NoDup_set_order].
  intros x y [_ Hx]%list_elem_of_filter [_ Hy]%list_elem_of_filter Heq.
  apply elem_of_set_order in Hx, Hy.
  destruct (decide (x = y)) as [|Hne]; [done|].
  destruct (pip_name_collision x y Heq Hne) as [E|E].
  - by destruct (Hpair _ _ E Hx).
  - by destruct (Hpair _ _ E Hy).
Qed.

Lemma resolver_no_duplicates_witness :
  NoDup (map_to_pip_packages
           (set_order (file_host []) {[ cp "yaml"; cp "requests" ]})).
Proof.
  apply (resolver_no_duplicates (file_host []) {[ cp "yaml"; cp "requests" ]}).
  intros k v Hkv%package_mapping_lookup Hk Hv.
  apply elem_of_union in Hv as [Hv|Hv]; apply elem_of_singleton in Hv; subst v;
    in_literal Hkv.
Defined.

(** Conversely, such a pair always gives a duplicate. *)
Lemma resolver_duplicates (h : host) (s : gset str) k v :
  package_mapping !! k = Some v -> k ∈ s -> v ∈ s ->
  ~ NoDup (map_to_pip_packages (set_order h s)).
Proof.
  intros Hkv Hk Hv. rewrite map_to_pip_packages_filter. intros Hnd.
  apply package_mapping_fact in Hkv as Hf.
  destruct Hf as (Hks & Hvs & Hnone & Hne & _).
  apply Hne.
  eapply (NoDup_fmap_inj_on pip_name _ k v Hnd).
  - apply list_elem_of_filter. by rewrite elem_of_set_order.
  - apply list_elem_of_filter. by rewrite elem_of_set_order.
  - unfold pip_name. by rewrite Hkv, Hnone.
Qed.

(** C4 as stated fails: with [yaml] and [pyyaml] both imported, the package
    list is [pyyaml] twice. *)
Lemma alias_and_package_name_duplicate :
  map_to_pip_packages
    (set_order (file_host []) {[ cp "yaml"; cp "pyyaml" ]})
  = [cp "pyyaml"; cp "pyyaml"]
  /\ ~ NoDup (map_to_pip_packages
               (set_order (file_host []) {[ cp "yaml"; cp "pyyaml" ]})).
Proof.
  split; [vm_compute; reflexivity|].
  apply (resolver_duplicates _ _ (cp "yaml") (cp "pyyaml")).
  - vm_compute. reflexivity.
  - apply (bool_decide_unpack _). vm_compute. exact I.
  - apply (bool_decide_unpack _). vm_compute. exact I.
Qed.

(** ** Reading fails *)

(** C5: when opening or reading the file raises an exception (of a class
    derived from [Exception]), [parse_imports] returns normally: it prints
    one warning and returns the empty set, from which the resolver makes the
    empty package list. *)
Theorem parse_imports_read_failure (h : host) (python_file : str)
    (e : exn) (w : world) :
  read_text h python_file = inl e ->
  is_Exception e = true ->
  parse_imports h python_file w
  = (Ret ∅, World (stdout w ++ [warning python_file e]) (files w))
  /\ map_to_pip_packages (set_order h ∅) = [].
Proof.
  intros Hread Hexc. split.
  - unfold parse_imports, try_except, open_read, handle.
    unfold mbind, M_bind, bind. rewrite Hread. simpl. rewrite Hexc. reflexivity.
  - assert (set_order h ∅ = []) as ->; [|done].
    apply Permutation_nil_r. rewrite (set_order_perm h ∅).
    by rewrite elements_empty.
Qed.

Lemma parse_imports_read_failure_witness :
  parse_imports (file_host []) (cp "missing.py") world0
  = (Ret ∅,
     World [warning (cp "missing.py") (no_such_file (cp "missing.py"))] ∅)
  /\ map_to_pip_packages (set_order (file_host []) ∅) = [].
Proof.
  apply (parse_imports_read_failure (file_host []) (cp "missing.py")
           (no_such_file (cp "missing.py")) world0); reflexivity.
Defined.

(** An exception that is not an [Exception] is not caught. *)
Lemma parse_imports_interrupted (h : host) (python_file : str)
    (e : exn) (w : world) :
  read_text h python_file = inl e ->
  is_Exception e = false ->
  parse_imports h python_file w = (Raise e, w).
Proof.
  intros Hread Hexc.
  unfold parse_imports, try_except, open_read, handle.
  unfold mbind, M_bind, bind. rewrite Hread. simpl. rewrite Hexc. reflexivity.
Qed.

(** ** The order of strings and [sorted] *)

Lemma str_leb_refl a : str_leb a a = true.
Proof.
  induction a as [|x a IH]; simpl; [done|].
  by rewrite N.ltb_irrefl, N.eqb_refl.
Qed.

#[export] Instance str_le_total : Total str_le.
Proof.
  intros a. unfold str_le. induction a as [|x a IH]; intros [|y b]; simpl; auto.
  destruct (N.ltb_spec x y), (N.ltb_spec y x), (N.eqb_spec x y),
    (N.eqb_spec y x); auto; try lia.
Qed.

#[export] Instance str_le_trans : Transitive str_le.
Proof.
  intros a. unfold str_le.
  induction a as [|x a IH]; intros [|y b] [|z c]; simpl; try done.
  destruct (N.ltb_spec x y), (N.ltb_spec y z), (N.ltb_spec x z),
    (N.eqb_spec x y), (N.eqb_spec y z), (N.eqb_spec x z);
    try done; try lia.
  apply IH.
Qed.

#[export] Instance str_le_antisym : AntiSymm (=) str_le.
Proof.
  intros a. unfold str_le.
  induction a as [|x a IH]; intros [|y b]; simpl; try done.
  destruct (N.ltb_spec x y), (N.ltb_spec y x), (N.eqb_spec x y),
    (N.eqb_spec y x); try done; try lia.
  intros H1 H2. subst. f_equal. by apply IH.
Qed.

(** [sorted] returns the one arrangement of its argument that is in
    order. *)
Lemma sorted_spec l : Sorted str_le (sorted l) /\ sorted l ≡ₚ l.
Proof.
  split; [apply (Sorted_merge_sort str_le)|apply merge_sort_Permutation].
Qed.

Lemma sorted_unique l k : Sorted str_le k -> k ≡ₚ l -> sorted l = k.
Proof.
  intros Hk Hp. apply (Sorted_unique str_le).
  - apply sorted_spec.
  - done.
  - by rewrite (proj2 (sorted_spec l)).
Qed.

Lemma sorted_Permutation l k : l ≡ₚ k -> sorted l = sorted k.
Proof.
  intros Hp. apply sorted_unique; [apply sorted_spec|].
  by rewrite (proj2 (sorted_spec k)).
Qed.

Lemma sorted_nonempty l : l <> [] -> sorted l <> [].
Proof.
  intros Hl Hs. apply Hl. apply Permutation_nil_r.
  by rewrite <- (proj2 (sorted_spec l)), Hs.
Qed.

(** ** The two generated files *)







(** ** The exit status *)

#[local] Arguments cp : simpl never.
#[local] Arguments rule : simpl never.

Lemma bind_Ret {A B} (m : M A) (f : A -> M B) w a w' :
  m w = (Ret a, w') -> (m ≫= f) w = f a w'.
Proof. intros H. unfold mbind, M_bind, bind. by rewrite H. Qed.

Lemma bind_Raise {A B} (m : M A) (f : A -> M B) w e w' :
  m w = (Raise e, w') -> (m ≫= f) w = (Raise e, w').
Proof. intros H. unfold mbind, M_bind, bind. by rewrite H. Qed.

Lemma bind_print {B} s (f : unit -> M B) w :
  (print s ≫= f) w = f tt (World (stdout w ++ [s]) (files w)).
Proof. reflexivity. Qed.

Lemma bind_mret {A B} (x : A) (f : A -> M B) w : (mret x ≫= f) w = f x w.
Proof. reflexivity. Qed.

Lemma bind_assoc {A B C} (m : M A) (f : A -> M B) (g : B -> M C) w :
  ((m ≫= f) ≫= g) w = (m ≫= fun x => f x ≫= g) w.
Proof. unfold mbind, M_bind, bind. by destruct (m w) as [[x|e] w']. Qed.

(** Run the prints and returns at the head of a computation. *)
Ltac run_prints :=
  repeat first [rewrite bind_assoc | rewrite bind_mret | rewrite bind_print].

Lemma main_file_not_found (h : host) (a : args) :
  os_path_isfile h (arg_python_file a) = false ->
  run_script h a
  = (Exited 1,
     World [cp "[ - ] Error: File not found: " ++ arg_python_file a] ∅).
Proof.
  intros H. unfold run_script, main. rewrite H.
  reflexivity.
Qed.

Lemma main_not_python (h : host) (a : args) :
  endswith (arg_python_file a) (cp ".py") = false ->
  fst (run_script h a) = Exited 1.
Proof.
  intros H. unfold run_script, main.
  destruct (os_path_isfile h _); rewrite ?H; reflexivity.
Qed.

Lemma parse_imports_ready (h : host) (a : args) w :
  ready h a ->
  exists imports out,
    parse_imports h (abs_file h a) w
    = (Ret imports, World (stdout w ++ out) (files w)).
Proof.
  intros Hr. destruct (read_text h (abs_file h a)) as [e|content] eqn:E.
  - exists ∅, [warning (abs_file h a) e].
    by apply parse_imports_read_failure, (ready_read _ _ Hr).
  - exists (scan_imports content), []. rewrite app_nil_r.
    rewrite (parse_imports_read _ _ content) by done. by destruct w.
Qed.

Lemma for_each_print (f : str -> str) l w :
  for_each l (fun x => print (f x)) w
  = (Ret tt, World (stdout w ++ (f <$> l)) (files w)).
Proof.
  revert w. induction l as [|x l IH]; intros w; simpl.
  - rewrite app_nil_r. by destruct w.
  - rewrite bind_print, IH. simpl. by rewrite <- app_assoc.
Qed.

(** A ready [main] gets as far as building the image. *)
Lemma main_reaches_build (h : host) (a : args) :
  ready h a ->
  exists w1, main h a world0 = build_and_run h a w1.
Proof.
  intros Hr. unfold main.
  rewrite (ready_isfile _ _ Hr), (ready_suffix _ _ Hr).
  fold (abs_file h a). fold (work_dir_of h a).
  fold (image_name_of h a). fold (container_name_of h a).
  rewrite !bind_mret, !bind_print.
  set (w0 := World _ _).
  destruct (parse_imports_ready h a w0 Hr) as (imports & out & Hp).
  erewrite bind_Ret by exact Hp.
  destruct (map_to_pip_packages (set_order h imports)) as [|p pl] eqn:Epl.
  - run_prints.
    unfold create_dockerfile, open_write. fold (work_dir_of h a).
    rewrite (ready_dockerfile _ _ Hr). run_prints.
    eexists. reflexivity.
  - run_prints.
    erewrite bind_Ret by apply for_each_print. run_prints.
    unfold create_dockerfile, create_requirements_txt, open_write.
    fold (work_dir_of h a).
    rewrite (ready_dockerfile _ _ Hr), (ready_requirements _ _ Hr).
    run_prints. eexists. reflexivity.
Qed.

(** Compute a monadic term whose host answers have been rewritten, and
    compare the worlds up to the bracketing of the output. *)
Ltac run_all :=
  unfold try_except, handle, run_checked, raise, sys_exit;
  unfold mbind, M_bind, bind, mret, M_ret, ret, print;
  cbn -[cp rule app].

Lemma build_docker_image_ok (h : host) work_dir image_name w :
  subprocess_run h (build_argv image_name) (Some work_dir) = None ->
  exists w', build_docker_image h work_dir image_name w = (Ret true, w').
Proof.
  intros H. unfold build_docker_image, run_checked. rewrite H. run_all.
  eexists. reflexivity.
Qed.

Lemma build_docker_image_failed (h : host) work_dir image_name w e :
  subprocess_run h (build_argv image_name) (Some work_dir) = Some e ->
  build_fails e = true ->
  exists w',
    build_docker_image h work_dir image_name w = (Ret false, w') /\
    build_failure_message e ∈ stdout w'.
Proof.
  intros H Hf. unfold build_docker_image, run_checked. rewrite H.
  unfold build_fails in Hf. unfold build_failure_message. run_all.
  destruct (is_CalledProcessError e); cbn -[cp rule app] in *.
  - eexists. split; [reflexivity|]. cbn -[cp rule app].
    apply elem_of_app; right; by apply list_elem_of_singleton.
  - rewrite Hf. cbn -[cp rule app].
    eexists. split; [reflexivity|]. cbn -[cp rule app].
    apply elem_of_app; right; by apply list_elem_of_singleton.
Qed.

Lemma run_docker_container_returns (h : host) image_name container_name w :
  match subprocess_run h (run_argv image_name container_name) None with
  | Some e => run_fails e = true
  | None => True
  end ->
  exists b w',
    run_docker_container h image_name container_name w = (Ret b, w') /\
    forall e,
      subprocess_run h (run_argv image_name container_name) None = Some e ->
      b = false /\ run_failure_message e ∈ stdout w'.
Proof.
  unfold run_docker_container, run_checked.
  destruct (subprocess_run h _ None) as [e|]; intros Hf; run_all.
  - unfold run_fails in Hf. unfold run_failure_message.
    exists false.
    destruct (is_CalledProcessError e) eqn:Ecpe; cbn -[cp rule app] in *.
    + eexists. split; [reflexivity|].
      intros e' [= <-]. split; [done|]. rewrite Ecpe. cbn -[cp rule app].
      apply elem_of_app; right; by apply list_elem_of_singleton.
    + rewrite Hf. cbn -[cp rule app].
      eexists. split; [reflexivity|].
      intros e' [= <-]. split; [done|]. rewrite Ecpe. cbn -[cp rule app].
      apply elem_of_app; right; by apply list_elem_of_singleton.
  - exists true. eexists. split; [reflexivity|]. intros e' [=].
Qed.

Lemma build_and_run_build_failed (h : host) (a : args) w e :
  subprocess_run h (build_argv (image_name_of h a)) (Some (work_dir_of h a))
  = Some e ->
  build_fails e = true ->
  exists w',
    build_and_run h a w = (Raise (Exn (SystemExit 1) []), w') /\
    build_failure_message e ∈ stdout w'.
Proof.
  intros H Hf.
  destruct (build_docker_image_failed h _ _ w e H Hf) as (w' & Hb & Hin).
  exists w'. split; [|done]. unfold build_and_run.
  erewrite bind_Ret by exact Hb. reflexivity.
Qed.

Lemma build_and_run_skipped (h : host) (a : args) w :
  subprocess_run h (build_argv (image_name_of h a)) (Some (work_dir_of h a))
  = None ->
  arg_no_run a = true ->
  exists w', build_and_run h a w = (Ret tt, w').
Proof.
  intros H Hno.
  destruct (build_docker_image_ok h _ _ w H) as (w' & Hb).
  unfold build_and_run. erewrite bind_Ret by exact Hb.
  rewrite Hno. eexists. reflexivity.
Qed.

Lemma build_and_run_ran (h : host) (a : args) w :
  subprocess_run h (build_argv (image_name_of h a)) (Some (work_dir_of h a))
  = None ->
  arg_no_run a = false ->
  match subprocess_run h
          (run_argv (image_name_of h a) (container_name_of h a)) None with
  | Some e => run_fails e = true
  | None => True
  end ->
  exists w',
    build_and_run h a w = (Ret tt, w') /\
    forall e,
      subprocess_run h
        (run_argv (image_name_of h a) (container_name_of h a)) None = Some e ->
      run_failure_message e ∈ stdout w'.
Proof.
  intros H Hno Hrun.
  destruct (build_docker_image_ok h _ _ w H) as (w1 & Hb).
  destruct (run_docker_container_returns h _ _ w1 Hrun) as (b & w2 & Hr & Hmsg).
  unfold build_and_run. erewrite bind_Ret by exact Hb.
  rewrite Hno. cbn [negb]. run_prints.
  erewrite bind_Ret by exact Hr. run_prints.
  eexists. split; [reflexivity|].
  intros e He. destruct (Hmsg e He) as [_ Hin]. cbn [stdout].
  apply elem_of_app. by left.
Qed.

Lemma run_script_status (h : host) (a : args) r w :
  main h a world0 = (r, w) -> fst (run_script h a) = status_of r.
Proof. intros H. unfold run_script. by rewrite H. Qed.

Lemma run_script_world (h : host) (a : args) r w :
  main h a world0 = (r, w) -> snd (run_script h a) = w.
Proof. intros H. unfold run_script. by rewrite H. Qed.

(** C7: the script ends with status 1 when its argument is not a file or
    does not end in [.py], and when the build fails; with status 0 when the
    build succeeds and the run is skipped or succeeds; and with status 0,
    after printing the failure, when the build succeeds and the run
    fails. *)
Theorem exit_status (h : host) (a : args) :
  (os_path_isfile h (arg_python_file a) = false ->
   fst (run_script h a) = Exited 1) /\
  (endswith (arg_python_file a) (cp ".py") = false ->
   fst (run_script h a) = Exited 1) /\
  (ready h a ->
   let build :=
     subprocess_run h (build_argv (image_name_of h a))
       (Some (work_dir_of h a)) in
   let run :=
     subprocess_run h
       (run_argv (image_name_of h a) (container_name_of h a)) None in
   (forall e, build = Some e -> build_fails e = true ->
      fst (run_script h a) = Exited 1) /\
   (build = None -> arg_no_run a = true ->
      fst (run_script h a) = Exited 0) /\
   (build = None -> arg_no_run a = false -> run = None ->
      fst (run_script h a) = Exited 0) /\
   (forall e, build = None -> arg_no_run a = false ->
      run = Some e -> run_fails e = true ->
      fst (run_script h a) = Exited 0 /\
      run_failure_message e ∈ stdout (snd (run_script h a)))).
Proof.
  split_and!.
  - intros H. by rewrite main_file_not_found.
  - apply main_not_python.
  - intros Hr build run.
    destruct (main_reaches_build h a Hr) as (w1 & Hmain).
    split_and!.
    + intros e Hb Hf.
      destruct (build_and_run_build_failed h a w1 e Hb Hf) as (w' & Hres & _).
      rewrite Hres in Hmain. by rewrite (run_script_status _ _ _ _ Hmain).
    + intros Hb Hno.
      destruct (build_and_run_skipped h a w1 Hb Hno) as (w' & Hres).
      rewrite Hres in Hmain. by rewrite (run_script_status _ _ _ _ Hmain).
    + intros Hb Hno Hrun.
      destruct (build_and_run_ran h a w1 Hb Hno) as (w' & Hres & _).
      { fold run. by rewrite Hrun. }
      rewrite Hres in Hmain. by rewrite (run_script_status _ _ _ _ Hmain).
    + intros e Hb Hno Hrun Hf.
      destruct (build_and_run_ran h a w1 Hb Hno) as (w' & Hres & Hmsg).
      { fold run. by rewrite Hrun. }
      rewrite Hres in Hmain.
      rewrite (run_script_status _ _ _ _ Hmain),
        (run_script_world _ _ _ _ Hmain).
      split; [done|]. by apply Hmsg.
Qed.

Lemma docker_host_ready content build run :
  ready (docker_host content build run) app_py.
Proof.
  constructor; try reflexivity.
  intros e He. vm_compute in He. discriminate.
Qed.

Lemma exit_status_witness :
  fst (run_script (docker_host sample None (Some exit_125)) app_py) = Exited 0
  /\ run_failure_message exit_125
     ∈ stdout (snd (run_script (docker_host sample None (Some exit_125)) app_py)).
Proof.
  destruct (exit_status (docker_host sample None (Some exit_125)) app_py)
    as (_ & _ & Hready).
  destruct (Hready (docker_host_ready _ _ _)) as (_ & _ & _ & Hfail).
  apply (Hfail exit_125); reflexivity.
Defined.

(** ** The scenario of the specification *)

(** C8: the text of three lines [import os], [import requests],
    [from bs4 import BeautifulSoup] gives the set of [os], [requests] and
    [bs4]; the package list holds [requests] and [beautifulsoup4] (in the
    order in which the set is walked) and not [os]; the manifest written is
    the line [beautifulsoup4] followed by the line [requests]. *)
Theorem scenario_os_requests_bs4 (h : host) (python_file work_dir : str)
    (w : world) :
  read_text h python_file = inr sample ->
  write_text h (os_path_join h work_dir (cp "requirements.txt")) = None ->
  let imports : gset str := {[ cp "os"; cp "requests"; cp "bs4" ]} in
  let pip_packages := map_to_pip_packages (set_order h imports) in
  let requirements_path := os_path_join h work_dir (cp "requirements.txt") in
  parse_imports h python_file w = (Ret imports, w) /\
  pip_packages ≡ₚ [cp "requests"; cp "beautifulsoup4"] /\
  (cp "os" ∉ pip_packages) /\
  create_requirements_txt h pip_packages work_dir w
  = (Ret (Some requirements_path),
     World (stdout w ++ [cp "Created requirements.txt at: "
                         ++ requirements_path])
       (<[requirements_path := ln (cp "beautifulsoup4") ++ ln (cp "requests")]>
          (files w))).
Proof.
  intros Hread Hwrite imports pip_packages requirements_path.
  assert (Hpl : pip_packages ≡ₚ [cp "requests"; cp "beautifulsoup4"]).
  { unfold pip_packages. rewrite map_to_pip_packages_filter.
    rewrite (set_order_perm h imports).
    apply (bool_decide_unpack _). vm_compute. exact I. }
  split_and!.
  - rewrite (parse_imports_read _ _ sample) by done.
    do 2 f_equal; try (vm_compute; reflexivity).
  - done.
  - rewrite Hpl. intros H. in_literal H.
  - destruct pip_packages as [|p pl] eqn:E.
    { by apply Permutation_nil_l in Hpl. }
    assert (Hc : requirements_content (p :: pl)
                 = ln (cp "beautifulsoup4") ++ ln (cp "requests")).
    { unfold requirements_content. rewrite (sorted_Permutation _ _ Hpl).
      vm_compute. reflexivity. }
    unfold create_requirements_txt, open_write, requirements_path.
    rewrite Hc, Hwrite. reflexivity.
Qed.

Lemma scenario_os_requests_bs4_witness :
  let h := file_host sample in
  let imports : gset str := {[ cp "os"; cp "requests"; cp "bs4" ]} in
  let pip_packages := map_to_pip_packages (set_order h imports) in
  parse_imports h (cp "app.py") world0 = (Ret imports, world0) /\
  pip_packages ≡ₚ [cp "requests"; cp "beautifulsoup4"] /\
  (cp "os" ∉ pip_packages) /\
  create_requirements_txt h pip_packages (cp "/work") world0
  = (Ret (Some (cp "/work/requirements.txt")),
     World [cp "Created requirements.txt at: /work/requirements.txt"]
       {[ cp "/work/requirements.txt"
          := ln (cp "beautifulsoup4") ++ ln (cp "requests") ]}).
Proof.
  intros h imports pip_packages.
  exact (scenario_os_requests_bs4 h (cp "app.py") (cp "/work") world0
           eq_refl eq_refl).
Defined.

(** ** Further properties of the extractor *)

(** X1: a match of the pattern at a cursor is exactly an import statement
    at a line start: white space, keyword, white space, and the longest
    run of identifier code points, which is group 1.  The repetitions never
    have to give anything back. *)
Theorem match_at_iff (c c' : cursor) (g : option str) :
  match_at import_pattern c = Some (c', g) <->
  exists ind kw gap name,
    bol c = true /\
    ahead c = ind ++ kw ++ gap ++ name ++ ahead c' /\
    behind c' = rev (ind ++ kw ++ gap ++ name) ++ behind c /\
    g = Some name /\
    import_text ind kw gap name (ahead c').
Proof.
  split; [apply match_at_shape|].
  intros (ind & kw & gap & name & Hbol & Ha & Hb & -> & Ht).
  rewrite import_pattern_greedy. destruct c as [bh ah], c' as [bh' ah'].
  simpl in *. subst ah bh'.
  by apply greedy_match_import_text.
Qed.

(** X2: when the scanner stands at a line start before an import statement
    (however deep the indentation, and also when line feeds stand between
    keyword and name), it yields a match whose group 1 is the statement's
    first identifier and resumes right after that identifier; a text that
    begins with the statement gives [parse_imports] that name. *)
Theorem import_statement_is_scanned (bh ind kw gap name rest : str) :
  bol (Cursor bh []) = true ->
  import_text ind kw gap name rest ->
  let stmt := ind ++ kw ++ gap ++ name in
  finditer_from import_pattern (Cursor bh (stmt ++ rest))
  = Match (length bh) (length stmt + length bh) (Some name)
    :: finditer_from import_pattern (Cursor (rev stmt ++ bh) rest)
  /\ (bh = [] -> name ∈ scan_imports (stmt ++ rest)).
Proof.
  intros Hbol Ht stmt.
  assert (Hm : match_at import_pattern (Cursor bh (stmt ++ rest))
               = Some (Cursor (rev stmt ++ bh) rest, Some name)).
  { rewrite import_pattern_greedy. unfold stmt. rewrite <- !app_assoc.
    by apply greedy_match_import_text. }
  assert (Hscan : finditer_from import_pattern (Cursor bh (stmt ++ rest))
    = Match (length bh) (length stmt + length bh) (Some name)
      :: finditer_from import_pattern (Cursor (rev stmt ++ bh) rest)).
  { rewrite (finditer_from_match _ _ _ Hm). f_equal.
    unfold offset. simpl. by rewrite length_app, length_rev. }
  split; [done|].
  intros ->. apply elem_of_scan_imports. eexists. split.
  - unfold finditer. rewrite Hscan. apply elem_of_cons. by left.
  - reflexivity.
Qed.

Lemma import_statement_is_scanned_witness :
  finditer_from import_pattern
    (Cursor [] (cp "    from" ++ [LF] ++ cp "pkg.sub import x"))
  = Match 0 12 (Some (cp "pkg"))
    :: finditer_from import_pattern
         (Cursor (rev (cp "    from" ++ [LF] ++ cp "pkg")) (cp ".sub import x"))
  /\ cp "pkg" ∈ scan_imports (cp "    from" ++ [LF] ++ cp "pkg.sub import x").
Proof.
  destruct (import_statement_is_scanned
              [] (cp "    ") (cp "from") [LF] (cp "pkg") (cp ".sub import x"))
    as [H1 H2].
  - reflexivity.
  - constructor;
      [ repeat constructor | by right | repeat constructor | done
      | repeat constructor | done | reflexivity ].
  - split; [exact H1|exact (H2 eq_refl)].
Defined.

Lemma greedy_tail_no_gap bh x r :
  is_space x = false -> greedy_tail bh (x :: r) = None.
Proof. intros H. unfold greedy_tail. simpl. by rewrite H. Qed.

(** X3: a keyword has to be followed by white space.  A line that starts
    with [importlib], [from_x], [import.x] and the like (after any
    indentation) is passed over without a match, and so is a keyword at the
    very end of the text. *)
Theorem keyword_needs_white_space (bh ind kw : str) (x : char)
    (rest tail : str) :
  all is_space ind -> keyword kw -> is_space x = false ->
  LF ∉ ind ++ x :: rest ->
  let line := ind ++ kw ++ x :: rest in
  finditer_from import_pattern (Cursor bh (line ++ tail))
  = finditer_from import_pattern (Cursor (rev line ++ bh) tail)
  /\ match_at import_pattern (Cursor bh (ind ++ kw)) = None.
Proof.
  intros Hind Hkw Hx HLF line. split.
  - apply finditer_from_pass.
    + unfold line. destruct ind; [|done]. simpl.
      pose proof (keyword_ne _ Hkw). by destruct kw.
    + unfold line. rewrite !elem_of_app in *.
      pose proof (keyword_no_LF _ Hkw). tauto.
    + rewrite import_pattern_greedy. unfold greedy_match.
      destruct (bol _); [|done]. unfold line. simpl ahead.
      rewrite <- !app_assoc.
      change ((x :: rest) ++ tail) with (x :: (rest ++ tail)).
      assert (stops is_space (kw ++ x :: rest ++ tail))
        by by destruct Hkw as [-> | ->].
      rewrite take_while_app, drop_while_app by done.
      unfold greedy_keyword. destruct Hkw as [-> | ->].
      * rewrite strip_prefix_here, greedy_tail_no_gap by done. reflexivity.
      * rewrite strip_prefix_here, greedy_tail_no_gap by done. reflexivity.
  - rewrite import_pattern_greedy. unfold greedy_match.
    destruct (bol _); [|done]. simpl ahead.
    assert (stops is_space kw) by by destruct Hkw as [-> | ->].
    rewrite <- (app_nil_r kw) at 1 2.
    rewrite take_while_app, drop_while_app by (rewrite ?app_nil_r; done).
    rewrite app_nil_r.
    unfold greedy_keyword. destruct Hkw as [-> | ->]; reflexivity.
Qed.

Lemma keyword_needs_white_space_witness :
  finditer_from import_pattern (Cursor [] (cp "importlib.reload(m)"))
  = finditer_from import_pattern (Cursor (rev (cp "importlib.reload(m)")) [])
  /\ match_at import_pattern (Cursor [] (cp "import")) = None.
Proof.
  apply (keyword_needs_white_space
           [] [] (cp "import") 108 (cp "ib.reload(m)") []).
  - constructor.
  - by left.
  - reflexivity.
  - intros H. in_literal H.
Defined.

Lemma match_at_span c c' g :
  match_at import_pattern c = Some (c', g) ->
  (offset c < offset c')%nat /\
  span_in (subject c) (Match (offset c) (offset c') g).
Proof.
  intros Hm. apply match_at_progress in Hm as Hp. destruct Hp as [Hs _].
  apply match_at_shape in Hm
    as (ind & kw & gap & name & Hbol & Ha & Hb & -> & Ht).
  destruct Ht as [Hind Hkw Hgap Hgne Hname Hnne Hrest].
  assert (Hoff : offset c' = (length (ind ++ kw ++ gap) + length name
                              + offset c)%nat).
  { unfold offset. rewrite Hb, length_app, length_rev, !length_app. lia. }
  assert (0 < length name)%nat by (destruct name; [done|simpl; lia]).
  split; [lia|]. unfold span_in. simpl. split_and!.
  - lia.
  - rewrite <- Hs. unfold subject. rewrite length_app, length_rev.
    unfold offset. lia.
  - unfold bol in Hbol. unfold subject, offset.
    destruct (behind c) as [|x bh]; [by left|]. right.
    apply N.eqb_eq in Hbol as ->. simpl.
    rewrite <- app_assoc, lookup_app_r by (rewrite length_rev; lia).
    rewrite length_rev. by replace (length bh - 0 - length bh)%nat with 0%nat by lia.
  - exists name. split_and!; try done.
    unfold subject. rewrite Ha.
    replace (offset c' - length name)%nat
      with (length (rev (behind c) ++ ind ++ kw ++ gap)).
    2: { rewrite Hoff, !length_app, length_rev. unfold offset. lia. }
    replace (rev (behind c) ++ ind ++ kw ++ gap ++ name ++ ahead c')
      with ((rev (behind c) ++ ind ++ kw ++ gap) ++ name ++ ahead c')
      by by rewrite <- !app_assoc.
    by rewrite drop_app_length, take_app_length.
Qed.

Lemma search_spans f c :
  Forall (fun m => (offset c <= m_start m)%nat /\ span_in (subject c) m)
    (search import_pattern f c)
  /\ Sorted before (search import_pattern f c).
Proof.
  revert c. induction f as [|f IH]; intros c; simpl; [by split|].
  destruct (match_at import_pattern c) as [[c' g]|] eqn:E.
  - destruct (match_at_span _ _ _ E) as [Hlt Hspan].
    apply match_at_progress in E as [Hs _].
    destruct (IH c') as [HF HS]. rewrite Hs in HF. split.
    + constructor; [by split|].
      eapply Forall_impl; [exact HF|]. simpl. intros m [? ?]. split; [lia|done].
    + constructor; [done|].
      destruct (search import_pattern f c') as [|m ms]; constructor.
      apply Forall_inv in HF as [? _]. unfold before. simpl. lia.
  - destruct c as [bh [|x ah]]; simpl; [by split|].
    destruct (IH (Cursor (x :: bh) ah)) as [HF HS]. split; [|done].
    eapply Forall_impl; [exact HF|]. simpl.
    intros m [? Hsp]. split; [unfold offset in *; simpl in *; lia|].
    replace (subject (Cursor bh (x :: ah)))
      with (subject (Cursor (x :: bh) ah)); [done|].
    unfold subject. simpl. by rewrite <- app_assoc.
Qed.

(** X4: the match objects [re.finditer] yields come in the order of the
    text and do not overlap; each has a non-empty span inside the text that
    starts at a line start, and its group 1 is the identifier that the span
    ends with. *)
Theorem finditer_spans (content : str) :
  Forall (span_in content) (finditer import_pattern content)
  /\ Sorted before (finditer import_pattern content).
Proof.
  unfold finditer, finditer_from.
  destruct (search_spans (S (length content)) (Cursor [] content)) as [HF HS].
  split; [|done].
  eapply Forall_impl; [exact HF|]. by intros m [_ ?].
Qed.

Lemma line_feeds_cons x s :
  line_feeds (x :: s)
  = ((if bool_decide (x = LF) then 1 else 0) + line_feeds s)%nat.
Proof.
  unfold line_feeds. rewrite filter_cons.
  case_decide; case_bool_decide; try done.
Qed.

Lemma line_feeds_app s t : line_feeds (s ++ t) = (line_feeds s + line_feeds t)%nat.
Proof. unfold line_feeds. by rewrite filter_app, length_app. Qed.

Lemma search_count f c :
  (length (search import_pattern f c)
   <= (if bol c then 1 else 0) + line_feeds (ahead c))%nat.
Proof.
  revert c. induction f as [|f IH]; intros c; simpl; [lia|].
  destruct (match_at import_pattern c) as [[c' g]|] eqn:E.
  - apply match_at_shape in E
      as (ind & kw & gap & name & Hbol & Ha & Hb & _ & Ht).
    specialize (IH c'). rewrite Hbol, Ha, !line_feeds_app.
    assert (bol c' = false) as Hb'.
    { destruct Ht as [_ _ _ _ Hname Hnne _].
      destruct name as [|z name _] using rev_ind; [done|].
      apply Forall_app in Hname as [_ Hz]. apply Forall_inv in Hz.
      destruct c' as [bh' ah']. simpl in Hb. subst bh'.
      rewrite !app_assoc. by apply bol_after_ident. }
    rewrite Hb' in IH. cbn [length]. lia.
  - destruct c as [bh [|x ah]]; simpl; [lia|].
    specialize (IH (Cursor (x :: bh) ah)). simpl in IH.
    rewrite line_feeds_cons. unfold bol in IH. simpl in IH.
    destruct (N.eqb_spec x LF); case_bool_decide; try done; lia.
Qed.

Lemma size_foldl_add_group acc ms :
  (size (foldl add_group acc ms) <= size acc + length ms)%nat.
Proof.
  revert acc. induction ms as [|m ms IH]; intros acc; simpl; [lia|].
  etransitivity; [apply IH|]. unfold add_group.
  destruct (m_group1 m) as [p|]; [|lia].
  pose proof (size_union_alt {[p]} acc) as Hu.
  assert (size (acc ∖ {[p]}) <= size acc)%nat
    by (apply subseteq_size; set_solver).
  rewrite size_singleton in Hu. lia.
Qed.

(** X5: a text yields at most one match for each of its lines, so
    [parse_imports] returns at most as many names as the text has lines
    (one more than it has line feeds). *)
Theorem at_most_one_name_per_line (content : str) :
  (length (finditer import_pattern content) <= S (line_feeds content))%nat
  /\ (size (scan_imports content) <= S (line_feeds content))%nat.
Proof.
  assert (H : (length (finditer import_pattern content)
               <= S (line_feeds content))%nat).
  { unfold finditer, finditer_from.
    pose proof (search_count (S (length content)) (Cursor [] content)) as H.
    unfold bol in H. cbn [behind ahead] in *. lia. }
  split; [done|].
  unfold scan_imports.
  pose proof (size_foldl_add_group ∅ (finditer import_pattern content)) as Hs.
  rewrite size_empty in Hs. lia.
Qed.

(** ** Further properties of the resolver *)

(** X6: the package list is empty exactly when every name of the set is a
    standard-library name. *)
Theorem resolver_empty_iff (h : host) (s : gset str) :
  map_to_pip_packages (set_order h s) = [] <-> s ⊆ stdlib.
Proof.
  destruct (resolver_drops_exactly_stdlib h s) as (_ & _ & Hin & _).
  split.
  - intros Hnil imp Himp.
    destruct (decide (imp ∈ stdlib)) as [|Hn]; [done|].
    assert (pip_name imp ∈ map_to_pip_packages (set_order h s)) as Hp
      by (apply Hin; by exists imp).
    rewrite Hnil in Hp. by apply elem_of_nil in Hp.
  - intros Hsub.
    destruct (map_to_pip_packages (set_order h s)) as [|p pl] eqn:E; [done|].
    assert (p ∈ p :: pl) as Hp by (apply elem_of_cons; by left).
    apply Hin in Hp as (imp & Himp & Hn & _).
    exfalso. exact (Hn (Hsub _ Himp)).
Qed.

Lemma pip_name_idempotent imp : pip_name (pip_name imp) = pip_name imp.
Proof.
  unfold pip_name at 2 3.
  destruct (package_mapping !! imp) as [v|] eqn:E; simpl.
  - apply package_mapping_fact in E as (_ & _ & Hnone & _).
    unfold pip_name. by rewrite Hnone.
  - unfold pip_name. by rewrite E.
Qed.

(** X7: package names are fixed points of the resolver: resolving a package
    list again gives the same list, for every list of import names. *)
Theorem resolver_idempotent (imports : list str) :
  map_to_pip_packages (map_to_pip_packages imports)
  = map_to_pip_packages imports.
Proof.
  rewrite !map_to_pip_packages_filter.
  induction imports as [|imp l IH]; [done|].
  rewrite filter_cons. case_decide as Himp; [|done].
  rewrite fmap_cons, filter_cons.
  pose proof (pip_name_not_stdlib imp Himp).
  case_decide; [|done].
  rewrite fmap_cons, pip_name_idempotent. by f_equal.
Qed.

(** X8: the manifest does not depend on the order in which the set of
    import names is walked: two orders of the same names give the same
    [requirements.txt] text. *)
Theorem manifest_order_independent (l1 l2 : list str) :
  l1 ≡ₚ l2 ->
  requirements_content (map_to_pip_packages l1)
  = requirements_content (map_to_pip_packages l2).
Proof.
  intros Hp. unfold requirements_content. f_equal. f_equal.
  apply sorted_Permutation. rewrite !map_to_pip_packages_filter.
  by rewrite Hp.
Qed.

Lemma manifest_order_independent_witness :
  requirements_content (map_to_pip_packages [cp "yaml"; cp "os"; cp "flask"])
  = requirements_content (map_to_pip_packages [cp "flask"; cp "yaml"; cp "os"]).
Proof.
  apply (manifest_order_independent
           [cp "yaml"; cp "os"; cp "flask"] [cp "flask"; cp "yaml"; cp "os"]).
  apply (bool_decide_unpack _). vm_compute. exact I.
Defined.
